(** * Hashstack loan-state replay: a shallow embedding of [src/hashstack.py]

    The development follows the Python module top-down: the event table and
    the ordering applied by [get_events], the loan entity with its health
    factor computations, the eight event handlers of [HashstackState], and
    the protocol-wide scans.

    Conventions of the embedding.
    - A Python exception is a value of [exn]; a call that may raise returns
      [res A].  Handlers take the state and return the new state, so a
      raised exception carries no (half-written) state.
    - A finite [decimal.Decimal] is modelled by its value.  Every token
      amount written by this module is
      [decimal.Decimal(str(int(x, base=16)))], [decimal.Decimal("0")] or a
      sum of two such amounts, hence an integer: amounts are values in
      [Z].  USD values, prices and thresholds are values in [Qc].
    - Arithmetic on decimals is that of the default context of the
      [decimal] module: the exact result rounded to 28 significant
      digits, half to even, with the traps of that context; a comparison
      is exact.  For USD values the exponent range of the context is
      modelled as well: [Overflow] beyond [Emax], and results too small
      for 28 digits rounded to a multiple of [10 ^ (Emin - 27)].  For
      token amounts it is not: a sum of two amounts is taken to stay
      below [10 ^ (Emax + 1)], amounts being the values of the
      hexadecimal literals of the event log.
    - A Python [dict] yields its items in the order its keys were first
      assigned.  Where this module iterates over a dictionary in a way
      that depends on the order (the loan entities of the state), the
      order is kept next to the mapping.
    - Logging (the [verbose_user] branches) does not touch the state and is
      left out. *)

From stdpp Require Import gmap strings list fin_maps sorting.
From Stdlib Require Import QArith Qcanon Qabs.

Local Open Scope Z_scope.

(* ------------------------------------------------------------------ *)
(** * Exceptions and results *)

Inductive exn : Set :=
  | KeyError
  | IndexError
  | ValueError
  | TypeError
  | AssertionError
  | DivisionByZero
  | InvalidOperation
  | Overflow.

Global Instance exn_eq_dec : EqDecision exn.
Proof. solve_decision. Defined.

Inductive res (A : Type) : Type :=
  | Ok (a : A)
  | Raise (e : exn).
Arguments Ok {A} a.
Arguments Raise {A} e.

Global Instance res_eq_dec {A} `{EqDecision A} : EqDecision (res A).
Proof. solve_decision. Defined.

Global Instance res_ret : MRet res := @Ok.
Global Instance res_bind : MBind res := λ A B f m,
  match m with
  | Ok a => f a
  | Raise e => Raise e
  end.

Global Instance res_fmap : FMap res := λ A B f m,
  match m with
  | Ok a => Ok (f a)
  | Raise e => Raise e
  end.

(** [assert c]. *)
Definition assert (c : bool) : res unit :=
  if c then Ok tt else Raise AssertionError.

(** [try: body except E: handler]. *)
Definition try_except {A} (body : res A) (E : exn) (handler : res A) : res A :=
  match body with
  | Ok a => Ok a
  | Raise e => if decide (e = E) then handler else Raise e
  end.

(* ------------------------------------------------------------------ *)
(** * Built-ins used by the decoders *)

(** [seq[i]] on a Python list: an index past the end raises [IndexError]. *)
Definition getitem (data : list string) (i : nat) : res string :=
  match data !! i with
  | Some x => Ok x
  | None => Raise IndexError
  end.

Definition code (c : Ascii.ascii) : Z := Z.of_N (Ascii.N_of_ascii c).

Definition hex_digit (c : Ascii.ascii) : option Z :=
  let n := code c in
  if bool_decide (48 ≤ n ≤ 57) then Some (n - 48)
  else if bool_decide (97 ≤ n ≤ 102) then Some (n - 87)
  else if bool_decide (65 ≤ n ≤ 70) then Some (n - 55)
  else None.

(** The white space [int] skips: tab, line feed, vertical tab, form
    feed, carriage return and space. *)
Definition is_space (c : Ascii.ascii) : bool :=
  bool_decide (9 ≤ code c ≤ 13) || bool_decide (code c = 32).

Fixpoint lstrip (s : string) : string :=
  match s with
  | String c s' => if is_space c then lstrip s' else s
  | EmptyString => EmptyString
  end.

Fixpoint rstrip (s : string) : string :=
  match s with
  | String c s' =>
      match rstrip s' with
      | EmptyString => if is_space c then EmptyString else String c EmptyString
      | s'' => String c s''
      end
  | EmptyString => EmptyString
  end.

(** An optional sign: the sign and the rest of the literal. *)
Definition strip_sign (s : string) : Z * string :=
  match s with
  | String c s' =>
      if bool_decide (code c = 43) then (1, s')
      else if bool_decide (code c = 45) then (-1, s')
      else (1, s)
  | EmptyString => (1, s)
  end.

(** An optional prefix [0x] or [0X], which one underscore may follow. *)
Definition strip_0x (s : string) : string :=
  if String.prefix "0x" s || String.prefix "0X" s then
    match String.substring 2 (String.length s - 2) s with
    | String c s' as body => if bool_decide (code c = 95) then s' else body
    | EmptyString => EmptyString
    end
  else s.

(** The digits after a digit; one underscore may stand between two
    digits. *)
Fixpoint hex_digits (acc : Z) (s : string) : option Z :=
  match s with
  | EmptyString => Some acc
  | String c s' =>
      if bool_decide (code c = 95) then
        match s' with
        | String c' s'' =>
            match hex_digit c' with
            | Some d => hex_digits (16 * acc + d) s''
            | None => None
            end
        | EmptyString => None
        end
      else
        match hex_digit c with
        | Some d => hex_digits (16 * acc + d) s'
        | None => None
        end
  end.

(** [int(s, base=16)] on a string of ASCII characters: white space, an
    optional sign, an optional prefix, at least one hexadecimal digit,
    white space.  Anything else raises [ValueError]. *)
Definition int16 (s : string) : res Z :=
  let '(sign, s') := strip_sign (rstrip (lstrip s)) in
  match strip_0x s' with
  | String c rest =>
      match hex_digit c with
      | Some d =>
          match hex_digits d rest with
          | Some n => Ok (sign * n)
          | None => Raise ValueError
          end
      | None => Raise ValueError
      end
  | EmptyString => Raise ValueError
  end.

(* ------------------------------------------------------------------ *)
(** * Events *)

(** The keys of [EVENTS_METHODS_MAPPING]: the values of the [key_name]
    column. *)
Inductive key_name : Set :=
  | new_loan
  | collateral_added
  | collateral_withdrawal
  | loan_withdrawal
  | loan_repaid
  | loan_swap
  | loan_interest_deducted
  | liquidated.

Global Instance key_name_eq_dec : EqDecision key_name.
Proof. solve_decision. Defined.

Record event : Type := Event {
  block_number : Z;
  transaction_hash : string;
  ev_key_name : key_name;
  data : list string;
}.

Global Instance event_eq_dec : EqDecision event.
Proof. solve_decision. Defined.

(** The dictionary mapped over the [key_name] column in [get_events]. *)
Definition order (k : key_name) : Z :=
  match k with
  | new_loan => 0
  | loan_withdrawal => 3
  | loan_repaid => 4
  | loan_swap => 1
  | collateral_added => 6
  | collateral_withdrawal => 7
  | loan_interest_deducted => 5
  | liquidated => 2
  end.

(** The columns [["block_number", "transaction_hash", "order"]]. *)
Definition sort_key (e : event) : Z * string * Z :=
  (block_number e, transaction_hash e, order (ev_key_name e)).

(** Ascending lexicographic comparison of two rows of these columns;
    strings compare by code point. *)
Definition key_leb (k1 k2 : Z * string * Z) : bool :=
  let '(b1, h1, o1) := k1 in
  let '(b2, h2, o2) := k2 in
  match Z.compare b1 b2 with
  | Lt => true
  | Gt => false
  | Eq =>
      match String.compare h1 h2 with
      | Lt => true
      | Gt => false
      | Eq => Z.leb o1 o2
      end
  end.

Definition key_ltb (k1 k2 : Z * string * Z) : bool := negb (key_leb k2 k1).

(** [DataFrame.sort_values] over several columns is a stable sort: rows
    with equal keys keep the order they arrived in.  Modelled as a stable
    insertion sort. *)
Fixpoint insert_row (e : event) (l : list event) : list event :=
  match l with
  | [] => [e]
  | x :: l' =>
      if key_leb (sort_key e) (sort_key x) then e :: x :: l'
      else x :: insert_row e l'
  end.

Definition sort_values (l : list event) : list event := foldr insert_row [] l.

(** [get_events]: the argument is the frame returned by
    [src.helpers.get_events]; the result is that frame sorted on
    [sort_key]. *)
Definition get_events (events : list event) : list event := sort_values events.

(* ------------------------------------------------------------------ *)
(** * The decimal context *)

(** [n / d] rounded to the nearest integer, a tie going to the even one
    ([ROUND_HALF_EVEN]); for [0 ≤ n] and [0 < d]. *)
Definition round_half_even (n d : Z) : Z :=
  let q := n / d in
  let r := n mod d in
  match Z.compare (2 * r) d with
  | Lt => q
  | Gt => q + 1
  | Eq => if Z.even q then q else q + 1
  end.

(** The number of decimal digits of [x], for [0 < x]; [x] has no more
    decimal digits than binary ones. *)
Fixpoint digits_upto (fuel : nat) (x : Z) : Z :=
  match fuel with
  | O => 1
  | S fuel' => if x <? 10 then 1 else 1 + digits_upto fuel' (x / 10)
  end.

Definition digits (x : Z) : Z := digits_upto (Z.to_nat (Z.log2 x)) x.

(** The default context of the [decimal] module: 28 significant digits,
    [ROUND_HALF_EVEN], exponents from [Emin] to [Emax], traps on
    [InvalidOperation], [DivisionByZero] and [Overflow]. *)
Definition prec : Z := 28.
Definition Emax : Z := 999999.
Definition Emin : Z := -999999.

(** An integer rounded to [prec] significant digits. *)
Definition round_amount (s : Z) : Z :=
  if Z.abs s <? 10 ^ prec then s
  else
    let k := digits (Z.abs s) - prec in
    Z.sgn s * (round_half_even (Z.abs s) (10 ^ k) * 10 ^ k).

(** [x + y] on two amounts. *)
Definition Decimal_add_amount (x y : Z) : Z := round_amount (x + y).

(** The exponent of the leading digit of [n / d], for [0 < n], [0 < d]:
    the [a] with [10 ^ a ≤ n / d < 10 ^ (a + 1)]. *)
Definition adjusted (n d : Z) : Z :=
  let a := digits n - digits d in
  if (if 0 <=? a then d * 10 ^ a <=? n else d <=? n * 10 ^ (- a))
  then a else a - 1.

(** [coefficient * 10 ^ exponent] as a rational. *)
Definition scale (coefficient exponent : Z) : Qc :=
  if 0 <=? exponent then Qc_of_Z (coefficient * 10 ^ exponent)
  else Q2Qc (Qmake coefficient (Z.to_pos (10 ^ (- exponent)))).

(** The result of an operation whose exact value is [q], in a context of
    precision [prec] and exponent range [Emin .. Emax]: [q] rounded to
    [prec] significant digits, or to a multiple of
    [10 ^ (Emin - prec + 1)] where it is too small for that; [Overflow]
    when the rounded value is beyond [Emax]. *)
Definition round_in (prec Emin Emax : Z) (q : Qc) : res Qc :=
  let n := Z.abs (Qnum q) in
  let d := Z.pos (Qden q) in
  if n =? 0 then Ok q
  else
    let e := Z.max (adjusted n d - (prec - 1)) (Emin - prec + 1) in
    let c := if 0 <=? e then round_half_even n (d * 10 ^ e)
             else round_half_even (n * 10 ^ (- e)) d in
    if c =? 0 then Ok (Q2Qc 0)
    else if Emax <? e + digits c - 1 then Raise Overflow
    else Ok (scale (Z.sgn (Qnum q) * c) e).

Definition round_context : Qc → res Qc := round_in prec Emin Emax.

(** [x + y] and [x * y] on finite decimals. *)
Definition Decimal_add (x y : Qc) : res Qc := round_context (x + y)%Qc.
Definition Decimal_mul (x y : Qc) : res Qc := round_context (x * y)%Qc.

(* ------------------------------------------------------------------ *)
(** * Token amounts and the loan entity *)

(** Modelled from the spec: [src.state.TokenAmounts] is not part of this
    module.  Its [token_amounts] is a mapping from token symbol to amount
    in which an absent key means zero; a fresh [TokenAmounts()] holds
    nothing. *)
Abbreviation TokenAmounts := (gmap string Z).

Definition TokenAmounts_new : TokenAmounts := ∅.

(** [x.token_amounts[token]] read as an amount. *)
Definition amount (x : TokenAmounts) (token : string) : Z :=
  default 0 (x !! token).

(** [HashstackLoanEntity]: [collateral] and [debt] come from the base
    [LoanEntity], the other four attributes from [__init__]. *)
Record HashstackLoanEntity : Type := LoanEntity {
  user : string;
  debt_category : Z;
  collateral : TokenAmounts;
  debt : TokenAmounts;
  original_collateral : TokenAmounts;
  borrowed_collateral : TokenAmounts;
}.

Global Instance HashstackLoanEntity_eq_dec : EqDecision HashstackLoanEntity.
Proof. solve_decision. Defined.

(** [HashstackLoanEntity(user=user, debt_category=debt_category)]. *)
Definition HashstackLoanEntity_init (user : string) (debt_category : Z)
  : HashstackLoanEntity :=
  {| user := user;
     debt_category := debt_category;
     collateral := TokenAmounts_new;
     debt := TokenAmounts_new;
     original_collateral := TokenAmounts_new;
     borrowed_collateral := TokenAmounts_new |}.

Definition set_collateral (x : TokenAmounts) (l : HashstackLoanEntity) :=
  {| user := user l; debt_category := debt_category l; collateral := x;
     debt := debt l; original_collateral := original_collateral l;
     borrowed_collateral := borrowed_collateral l |}.
Definition set_debt (x : TokenAmounts) (l : HashstackLoanEntity) :=
  {| user := user l; debt_category := debt_category l;
     collateral := collateral l; debt := x;
     original_collateral := original_collateral l;
     borrowed_collateral := borrowed_collateral l |}.
Definition set_original_collateral (x : TokenAmounts) (l : HashstackLoanEntity) :=
  {| user := user l; debt_category := debt_category l;
     collateral := collateral l; debt := debt l; original_collateral := x;
     borrowed_collateral := borrowed_collateral l |}.
Definition set_borrowed_collateral (x : TokenAmounts) (l : HashstackLoanEntity) :=
  {| user := user l; debt_category := debt_category l;
     collateral := collateral l; debt := debt l;
     original_collateral := original_collateral l;
     borrowed_collateral := x |}.
Definition set_debt_category (c : Z) (l : HashstackLoanEntity) :=
  {| user := user l; debt_category := c; collateral := collateral l;
     debt := debt l; original_collateral := original_collateral l;
     borrowed_collateral := borrowed_collateral l |}.

(** A price map: token symbol to USD price. *)
Abbreviation Prices := (gmap string Qc).

(** What this module takes from the rest of the repository:
    [src.constants.get_symbol] and [src.constants.TOKEN_DECIMAL_FACTORS],
    and the methods of the base class [src.state.LoanEntity]. *)
Class Collaborators : Type := {
  get_symbol : string → res string;
  TOKEN_DECIMAL_FACTORS : gmap string Qc;
  compute_collateral_usd : HashstackLoanEntity → option Prices → res Qc;
  compute_debt_usd : HashstackLoanEntity → option Prices → res Qc;
  has_collateral : HashstackLoanEntity → bool;
  has_debt : HashstackLoanEntity → bool;
}.

(** A health factor: a finite decimal or [decimal.Decimal("Inf")]. *)
Inductive health_factor : Type :=
  | Finite (q : Qc)
  | Inf.

Global Instance health_factor_eq_dec : EqDecision health_factor.
Proof. solve_decision. Defined.

(** [hf >= threshold] for a finite threshold. *)
Definition hf_geb (hf : health_factor) (threshold : Qc) : bool :=
  match hf with
  | Finite q => bool_decide (threshold ≤ q)%Qc
  | Inf => true
  end.

(** [x / y] on finite decimals: a zero divisor raises [DivisionByZero]
    ([InvalidOperation] for [0 / 0]); otherwise the quotient is rounded
    by the context. *)
Definition Decimal_div (x y : Qc) : res Qc :=
  if decide (y = 0%Qc) then
    Raise (if decide (x = 0%Qc) then InvalidOperation else DivisionByZero)
  else round_context (x / y)%Qc.

Definition Decimal_1_06 : Qc := Q2Qc (106 # 100).
Definition Decimal_1_05 : Qc := Q2Qc (105 # 100).
Definition Decimal_1_04 : Qc := Q2Qc (104 # 100).

(** [if x is None: x = compute()], for an optional argument [x]. *)
Definition if_None {A} (x : option A) (compute : res A) : res A :=
  match x with
  | Some v => Ok v
  | None => compute
  end.

Section LoanEntity.
Context `{Collaborators}.

Definition compute_health_factor (self : HashstackLoanEntity)
    (prices : option Prices) (collateral_usd debt_usd : option Qc)
  : res health_factor :=
  collateral_usd ← if_None collateral_usd (compute_collateral_usd self prices);
  debt_usd ← if_None debt_usd (compute_debt_usd self prices);
  if decide (debt_usd = 0%Qc) then mret Inf
  else Finite <$> Decimal_div collateral_usd debt_usd.

Definition compute_standardized_health_factor (self : HashstackLoanEntity)
    (prices : option Prices) (collateral_usd debt_usd : option Qc)
  : res health_factor :=
  collateral_usd ← if_None collateral_usd (compute_collateral_usd self prices);
  debt_usd ← if_None debt_usd (compute_debt_usd self prices);
  let health_factor_liquidation_threshold :=
    if decide (debt_category self = 1) then Decimal_1_06
    else if decide (debt_category self = 2) then Decimal_1_05
    else Decimal_1_04 in
  collateral_usd_threshold ←
    Decimal_mul health_factor_liquidation_threshold debt_usd;
  if decide (collateral_usd_threshold = 0%Qc) then mret Inf
  else Finite <$> Decimal_div collateral_usd collateral_usd_threshold.

Definition compute_debt_to_be_liquidated (self : HashstackLoanEntity)
    (debt_usd : option Qc) (prices : option Prices) : res Qc :=
  debt_usd ← if_None debt_usd (compute_debt_usd self prices);
  mret debt_usd.
End LoanEntity.

(* ------------------------------------------------------------------ *)
(** * The state and its event handlers *)

(** [HashstackState]: the loan entities by loan id, and [loan_ids], the
    loan ids in the order they were first assigned, which is the order
    in which the dictionary [self.loan_entities] yields its items. *)
Record HashstackState : Type := State {
  loan_entities : gmap Z HashstackLoanEntity;
  loan_ids : list Z;
  verbose_user : option string;
}.

(** [HashstackState(verbose_user)]. *)
Definition HashstackState_init (verbose_user : option string) : HashstackState :=
  {| loan_entities := ∅; loan_ids := []; verbose_user := verbose_user |}.

(** [self.loan_entities[loan_id] = entity], also the write-back of an
    attribute assignment on [self.loan_entities[loan_id]]: a loan id
    assigned for the first time goes to the end of the order, one
    assigned again keeps its place. *)
Definition store (self : HashstackState) (loan_id : Z)
    (entity : HashstackLoanEntity) : HashstackState :=
  {| loan_entities := <[loan_id := entity]> (loan_entities self);
     loan_ids := if decide (loan_id ∈ loan_ids self) then loan_ids self
                 else loan_ids self ++ [loan_id];
     verbose_user := verbose_user self |}.

(** Modelled from the spec: the store of [src.state.State] is a mapping
    from loan id to entity; reading [self.loan_entities[loan_id]] for an
    id that is not in it raises. *)
Definition load (self : HashstackState) (loan_id : Z) : res HashstackLoanEntity :=
  match loan_entities self !! loan_id with
  | Some entity => Ok entity
  | None => Raise KeyError
  end.

Section State.
Context `{Collaborators}.

(** The comprehension every handler assigns to
    [collateral.token_amounts]: one entry per key of
    [TOKEN_DECIMAL_FACTORS]. *)
Definition sum_collateral (entity : HashstackLoanEntity) : TokenAmounts :=
  map_imap
    (λ token _, Some (Decimal_add_amount
                        (amount (original_collateral entity) token)
                        (amount (borrowed_collateral entity) token)))
    TOKEN_DECIMAL_FACTORS.

Definition recompute_collateral (entity : HashstackLoanEntity)
  : HashstackLoanEntity :=
  set_collateral (sum_collateral entity) entity.

Definition process_new_loan_event (self : HashstackState) (event : event)
  : res HashstackState :=
  loan_id ← getitem (data event) 0 ≫= int16;
  user ← getitem (data event) 1;
  debt_token ← getitem (data event) 2 ≫= get_symbol;
  debt_face_amount ← getitem (data event) 4 ≫= int16;
  borrowed_collateral_token ← getitem (data event) 6 ≫= get_symbol;
  borrowed_collateral_face_amount ← getitem (data event) 7 ≫= int16;
  debt_category ← getitem (data event) 10 ≫= int16;
  '(original_collateral_token, original_collateral_face_amount) ←
    try_except
      (token ← getitem (data event) 14 ≫= get_symbol;
       face_amount ← getitem (data event) 17 ≫= int16;
       mret (token, face_amount))
      KeyError
      (token ← getitem (data event) 13 ≫= get_symbol;
       face_amount ← getitem (data event) 16 ≫= int16;
       mret (token, face_amount));
  let entity := HashstackLoanEntity_init user debt_category in
  let original_collateral :=
    <[original_collateral_token := original_collateral_face_amount]>
      TokenAmounts_new in
  let entity := set_original_collateral original_collateral entity in
  let borrowed_collateral :=
    <[borrowed_collateral_token := borrowed_collateral_face_amount]>
      TokenAmounts_new in
  let entity := set_borrowed_collateral borrowed_collateral entity in
  let entity := recompute_collateral entity in
  let debt := <[debt_token := debt_face_amount]> TokenAmounts_new in
  let entity := set_debt debt entity in
  mret (store self loan_id entity).

Definition process_collateral_added_event (self : HashstackState)
    (event : event) : res HashstackState :=
  loan_id ← getitem (data event) 9 ≫= int16;
  original_collateral_token ← getitem (data event) 0 ≫= get_symbol;
  original_collateral_face_amount ← getitem (data event) 3 ≫= int16;
  let original_collateral :=
    <[original_collateral_token := original_collateral_face_amount]>
      TokenAmounts_new in
  entity ← load self loan_id;
  let entity := set_original_collateral original_collateral entity in
  let entity := recompute_collateral entity in
  mret (store self loan_id entity).

Definition process_collateral_withdrawal_event (self : HashstackState)
    (event : event) : res HashstackState :=
  loan_id ← getitem (data event) 9 ≫= int16;
  original_collateral_token ← getitem (data event) 0 ≫= get_symbol;
  original_collateral_face_amount ← getitem (data event) 3 ≫= int16;
  let original_collateral :=
    <[original_collateral_token := original_collateral_face_amount]>
      TokenAmounts_new in
  entity ← load self loan_id;
  let entity := set_original_collateral original_collateral entity in
  let entity := recompute_collateral entity in
  mret (store self loan_id entity).

Definition process_loan_withdrawal_event (self : HashstackState)
    (event : event) : res HashstackState :=
  loan_id ← getitem (data event) 0 ≫= int16;
  user' ← getitem (data event) 1;
  entity ← load self loan_id;
  _ ← assert (bool_decide (user entity = user'));
  debt_token ← getitem (data event) 2 ≫= get_symbol;
  debt_face_amount ← getitem (data event) 4 ≫= int16;
  borrowed_collateral_token ← getitem (data event) 6 ≫= get_symbol;
  borrowed_collateral_face_amount ← getitem (data event) 7 ≫= int16;
  debt_category ← getitem (data event) 10 ≫= int16;
  let borrowed_collateral :=
    <[borrowed_collateral_token := borrowed_collateral_face_amount]>
      TokenAmounts_new in
  let entity := set_borrowed_collateral borrowed_collateral entity in
  let entity := recompute_collateral entity in
  let debt := <[debt_token := debt_face_amount]> TokenAmounts_new in
  let entity := set_debt debt entity in
  let entity := set_debt_category debt_category entity in
  mret (store self loan_id entity).

Definition process_loan_repaid_event (self : HashstackState)
    (event : event) : res HashstackState :=
  loan_id ← getitem (data event) 0 ≫= int16;
  user' ← getitem (data event) 1;
  entity ← load self loan_id;
  _ ← assert (bool_decide (user entity = user'));
  debt_token ← getitem (data event) 2 ≫= get_symbol;
  let debt_face_amount := 0 in
  borrowed_collateral_token ← getitem (data event) 6 ≫= get_symbol;
  borrowed_collateral_face_amount ← getitem (data event) 7 ≫= int16;
  _ ← assert (bool_decide (borrowed_collateral_face_amount = 0));
  debt_category ← getitem (data event) 10 ≫= int16;
  let borrowed_collateral :=
    <[borrowed_collateral_token := borrowed_collateral_face_amount]>
      TokenAmounts_new in
  let entity := set_borrowed_collateral borrowed_collateral entity in
  let entity := recompute_collateral entity in
  let debt := <[debt_token := debt_face_amount]> TokenAmounts_new in
  let entity := set_debt debt entity in
  let entity := set_debt_category debt_category entity in
  mret (store self loan_id entity).

Definition process_loan_swap_event (self : HashstackState)
    (event : event) : res HashstackState :=
  old_loan_id ← getitem (data event) 0 ≫= int16;
  old_user ← getitem (data event) 1;
  old_entity ← load self old_loan_id;
  _ ← assert (bool_decide (user old_entity = old_user));
  new_loan_id ← getitem (data event) 14 ≫= int16;
  new_user ← getitem (data event) 15;
  _ ← assert (bool_decide (new_loan_id = old_loan_id));
  _ ← assert (bool_decide (new_user = old_user));
  new_debt_token ← getitem (data event) 16 ≫= get_symbol;
  new_debt_face_amount ← getitem (data event) 18 ≫= int16;
  new_borrowed_collateral_token ← getitem (data event) 20 ≫= get_symbol;
  new_borrowed_collateral_face_amount ← getitem (data event) 21 ≫= int16;
  new_debt_category ← getitem (data event) 24 ≫= int16;
  let new_borrowed_collateral :=
    <[new_borrowed_collateral_token := new_borrowed_collateral_face_amount]>
      TokenAmounts_new in
  entity ← load self new_loan_id;
  let entity := set_borrowed_collateral new_borrowed_collateral entity in
  let entity := recompute_collateral entity in
  let new_debt := <[new_debt_token := new_debt_face_amount]> TokenAmounts_new in
  _ ← assert (bool_decide (debt entity = new_debt));
  let entity := set_debt new_debt entity in
  let entity := set_debt_category new_debt_category entity in
  mret (store self new_loan_id entity).

Definition process_loan_interest_deducted_event (self : HashstackState)
    (event : event) : res HashstackState :=
  loan_id ← getitem (data event) 11 ≫= int16;
  original_collateral_token ← getitem (data event) 0 ≫= get_symbol;
  original_collateral_face_amount ← getitem (data event) 3 ≫= int16;
  let original_collateral :=
    <[original_collateral_token := original_collateral_face_amount]>
      TokenAmounts_new in
  entity ← load self loan_id;
  let entity := set_original_collateral original_collateral entity in
  let entity := recompute_collateral entity in
  mret (store self loan_id entity).

Definition process_liquidated_event (self : HashstackState)
    (event : event) : res HashstackState :=
  loan_id ← getitem (data event) 0 ≫= int16;
  user' ← getitem (data event) 1;
  entity ← load self loan_id;
  _ ← assert (bool_decide (user entity = user'));
  debt_token ← getitem (data event) 2 ≫= get_symbol;
  let debt_face_amount := 0 in
  borrowed_collateral_token ← getitem (data event) 6 ≫= get_symbol;
  borrowed_collateral_face_amount ← getitem (data event) 7 ≫= int16;
  _ ← assert (bool_decide (borrowed_collateral_face_amount = 0));
  debt_category ← getitem (data event) 10 ≫= int16;
  let borrowed_collateral :=
    <[borrowed_collateral_token := borrowed_collateral_face_amount]>
      TokenAmounts_new in
  let entity := set_borrowed_collateral borrowed_collateral entity in
  let original_collateral := TokenAmounts_new in
  let entity := set_original_collateral original_collateral entity in
  let entity := recompute_collateral entity in
  let debt := <[debt_token := debt_face_amount]> TokenAmounts_new in
  let entity := set_debt debt entity in
  let entity := set_debt_category debt_category entity in
  mret (store self loan_id entity).

(** [EVENTS_METHODS_MAPPING]: the handler of each [key_name]. *)
Definition EVENTS_METHODS_MAPPING (k : key_name)
  : HashstackState → event → res HashstackState :=
  match k with
  | new_loan => process_new_loan_event
  | collateral_added => process_collateral_added_event
  | collateral_withdrawal => process_collateral_withdrawal_event
  | loan_withdrawal => process_loan_withdrawal_event
  | loan_repaid => process_loan_repaid_event
  | loan_swap => process_loan_swap_event
  | loan_interest_deducted => process_loan_interest_deducted_event
  | liquidated => process_liquidated_event
  end.

(** Modelled from the spec: the dispatcher of [src.state.State] routes
    an event to the one handler its [key_name] maps to. *)
Definition process_event (self : HashstackState) (event : event)
  : res HashstackState :=
  EVENTS_METHODS_MAPPING (ev_key_name event) self event.

(** Modelled from the spec: the replay applies the events strictly in
    the order given, and the first exception aborts it. *)
Fixpoint replay (self : HashstackState) (events : list event)
  : res HashstackState :=
  match events with
  | [] => mret self
  | event :: events' => self' ← process_event self event; replay self' events'
  end.

(** The body of the [for] loop of [compute_liquidable_debt_at_price]:
    [max_liquidated_amount] after one more loan entity. *)
Definition liquidable_debt_step (changed_prices : Prices)
    (debt_token : string) (max_liquidated_amount : Qc)
    (loan_entity : HashstackLoanEntity) : res Qc :=
  let debt_tokens : gset string :=
    dom (filter (λ item, 0 < item.2) (debt loan_entity)) in
  if negb (bool_decide (debt_token ∈ debt_tokens)) then
    mret max_liquidated_amount
  else
    debt_usd ← compute_debt_usd loan_entity (Some changed_prices);
    health_factor ← compute_health_factor loan_entity
                      (Some changed_prices) None (Some debt_usd);
    let health_factor_liquidation_threshold :=
      if decide (debt_category loan_entity = 1) then Decimal_1_06
      else if decide (debt_category loan_entity = 2) then Decimal_1_05
      else Decimal_1_04 in
    if hf_geb health_factor health_factor_liquidation_threshold then
      mret max_liquidated_amount
    else
      liquidated_debt ← compute_debt_to_be_liquidated loan_entity
                          (Some debt_usd) None;
      Decimal_add max_liquidated_amount liquidated_debt.

Fixpoint for_each_loan (body : Qc → HashstackLoanEntity → res Qc)
    (acc : Qc) (entities : list HashstackLoanEntity) : res Qc :=
  match entities with
  | [] => mret acc
  | loan_entity :: entities' =>
      acc' ← body acc loan_entity; for_each_loan body acc' entities'
  end.

(** [self.loan_entities.values()]: the loan entities in the order of
    [loan_ids]. *)
Definition loan_entity_values (self : HashstackState)
  : list HashstackLoanEntity :=
  omap (λ loan_id, loan_entities self !! loan_id) (loan_ids self).

Definition compute_liquidable_debt_at_price (self : HashstackState)
    (prices : Prices) (collateral_token : string)
    (collateral_token_price : Qc) (debt_token : string) : res Qc :=
  let changed_prices := <[collateral_token := collateral_token_price]> prices in
  for_each_loan (liquidable_debt_step changed_prices debt_token)
    0%Qc (loan_entity_values self).

Definition unique_active_users (self : HashstackState) : gset string :=
  list_to_set
    (user <$> filter (λ loan_entity,
                        has_collateral loan_entity ∨ has_debt loan_entity)
                (loan_entity_values self)).

Definition compute_number_of_active_users (self : HashstackState) : nat :=
  size (unique_active_users self).

Definition unique_active_borrowers (self : HashstackState) : gset string :=
  list_to_set
    (user <$> filter (λ loan_entity, has_debt loan_entity : Prop)
                (loan_entity_values self)).

Definition compute_number_of_active_borrowers (self : HashstackState) : nat :=
  size (unique_active_borrowers self).
End State.

Global Arguments key_leb : simpl never.
Global Arguments sort_key : simpl never.

(** [e1] sorts no later than [e2]. *)
Definition key_le (e1 e2 : event) : Prop :=
  key_leb (sort_key e1) (sort_key e2) = true.

(* ------------------------------------------------------------------ *)
(** * A reference implementation of the collaborators *)

(** Modelled from the spec: the token registry
    [get_symbol(address_hex) -> token_symbol] of [src.constants], which
    fails on a lookup miss.  Addresses are matched as numbers; the miss
    is the [KeyError] that [process_new_loan_event] handles. *)
Definition registry_get_symbol (registry : list (Z * string))
    (address : string) : res string :=
  n ← int16 address;
  match list_find (λ entry, entry.1 = n) registry with
  | Some (_, (_, symbol)) => Ok symbol
  | None => Raise KeyError
  end.

(** Modelled from the spec: [compute_collateral_usd] and
    [compute_debt_usd] of [src.state.LoanEntity] sum, over a token-amount
    set, the face amount divided by the token's decimal-scale factor and
    multiplied by its price; a token without a price entry fails. *)
Fixpoint items_usd (factors : gmap string Qc) (prices : Prices)
    (total : Qc) (items : list (string * Z)) : res Qc :=
  match items with
  | [] => Ok total
  | item :: items' =>
      match factors !! item.1, prices !! item.1 with
      | Some factor, Some price =>
          face ← Decimal_div (Qc_of_Z item.2) factor;
          usd ← Decimal_mul face price;
          total' ← Decimal_add total usd;
          items_usd factors prices total' items'
      | _, _ => Raise KeyError
      end
  end.

Definition token_amounts_usd (factors : gmap string Qc) (x : TokenAmounts)
    (prices : option Prices) : res Qc :=
  match prices with
  | None => Raise TypeError
  | Some prices => items_usd factors prices 0%Qc (map_to_list x)
  end.

(** Modelled from the spec: [has_collateral] and [has_debt] of
    [src.state.LoanEntity] hold when some amount of the set is not zero. *)
Definition any_amount (x : TokenAmounts) : bool :=
  existsb (λ item, negb (item.2 =? 0)) (map_to_list x).

Definition reference_collaborators (registry : list (Z * string))
    (factors : gmap string Qc) : Collaborators :=
  {| get_symbol := registry_get_symbol registry;
     TOKEN_DECIMAL_FACTORS := factors;
     compute_collateral_usd := λ self, token_amounts_usd factors (collateral self);
     compute_debt_usd := λ self, token_amounts_usd factors (debt self);
     has_collateral := λ self, any_amount (collateral self);
     has_debt := λ self, any_amount (debt self) |}.

(** The two-token universe of the scenarios: address [0xa] is token [A],
    address [0xb] is token [B], both with scale factor one. *)
Definition scenario : Collaborators :=
  reference_collaborators [(10, "A"); (11, "B")]
    (<["A" := Qc_of_Z 1]> (<["B" := Qc_of_Z 1]> ∅)).

(** A loan record: the first fourteen fields of the loan events. *)
Definition loan_record (id owner market amount current_market current_amount
    debt_category : string) : list string :=
  [id; owner; market; "0x0"; amount; "0x0"; current_market; current_amount;
   "0x0"; "0x1"; debt_category; "0x1"; "0x0"; "0x65a0"].

(** A collateral record: the first nine fields of the collateral events. *)
Definition collateral_record (market amount current_amount : string)
  : list string :=
  [market; amount; "0x0"; current_amount; "0x0"; "0x0"; "0x0"; "0x0"; "0x0"].

(** Loan 7 of user [0x51]: debt of 100 [A], original collateral of 50 [B],
    borrowed collateral of 20 [B]. *)
Definition loan7_created : event :=
  {| block_number := 100; transaction_hash := "0x01";
     ev_key_name := new_loan;
     data := loan_record "0x7" "0x51" "0xa" "0x64" "0xb" "0x14" "0x3"
             ++ collateral_record "0xb" "0x32" "0x32" ++ ["0x65a0"] |}.

(** Loan 7 liquidated: no borrowed collateral left. *)
Definition loan7_liquidated : event :=
  {| block_number := 120; transaction_hash := "0x0f";
     ev_key_name := liquidated;
     data := loan_record "0x7" "0x51" "0xa" "0x64" "0xb" "0x0" "0x3"
             ++ ["0x99"; "0x65b0"] |}.

(** Loan 7 repaid in full. *)
Definition loan7_repaid : event :=
  {| block_number := 130; transaction_hash := "0x1a";
     ev_key_name := loan_repaid;
     data := loan_record "0x7" "0x51" "0xa" "0x64" "0xb" "0x0" "0x3"
             ++ ["0x65c0"] |}.

(** Collateral of loan 7 raised to 80 [B]. *)
Definition loan7_collateral_added : event :=
  {| block_number := 110; transaction_hash := "0x0b";
     ev_key_name := collateral_added;
     data := collateral_record "0xb" "0x50" "0x50"
             ++ ["0x7"; "0x1e"; "0x0"; "0x65a8"] |}.

(** A second creation event for loan 7, by another user. *)
Definition loan7_created_again : event :=
  {| block_number := 140; transaction_hash := "0x2c";
     ev_key_name := new_loan;
     data := loan_record "0x7" "0x52" "0xb" "0x5" "0xa" "0x1" "0x1"
             ++ collateral_record "0xa" "0x2" "0x2" ++ ["0x65d0"] |}.

(** A creation event cut after seventeen fields: index 17 of the first
    layout is absent, indices 13 and 16 of the second layout are there. *)
Definition loan8_truncated : event :=
  {| block_number := 150; transaction_hash := "0x3d";
     ev_key_name := new_loan;
     data := take 13 (loan_record "0x8" "0x51" "0xa" "0x64" "0xb" "0x14" "0x3")
             ++ ["0xb"; "0xb"; "0x0"; "0x32"] |}.

(** A second addition of collateral to loan 7 in the transaction of
    [loan7_collateral_added], leaving 40 [B]. *)
Definition loan7_collateral_added_twice : event :=
  {| block_number := 110; transaction_hash := "0x0b";
     ev_key_name := collateral_added;
     data := collateral_record "0xb" "0x28" "0x28"
             ++ ["0x7"; "0xa"; "0x0"; "0x65a8"] |}.

(* ------------------------------------------------------------------ *)
(** * The standing invariant *)

Section Invariant.
Context `{Collaborators}.

(** [collateral.token_amounts[t] == original_collateral.token_amounts[t]
    + borrowed_collateral.token_amounts[t]] for every key [t] of
    [TOKEN_DECIMAL_FACTORS], the sum being that of the decimal
    context. *)
Definition collateral_is_sum (entity : HashstackLoanEntity) : Prop :=
  ∀ t, t ∈ dom TOKEN_DECIMAL_FACTORS →
    collateral entity !! t
    = Some (Decimal_add_amount (amount (original_collateral entity) t)
              (amount (borrowed_collateral entity) t)).

Definition state_invariant (self : HashstackState) : Prop :=
  ∀ loan_id entity,
    loan_entities self !! loan_id = Some entity → collateral_is_sum entity.
End Invariant.

(* ------------------------------------------------------------------ *)
(** * The original collateral across a replay *)

Section OriginalCollateral.
Context `{Collaborators}.

(** The loan id and the original collateral that a [collateral_added]
    or [collateral_withdrawal] event carries. *)
Definition collateral_snapshot (event : event) : res (Z * TokenAmounts) :=
  loan_id ← getitem (data event) 9 ≫= int16;
  token ← getitem (data event) 0 ≫= get_symbol;
  face_amount ← getitem (data event) 3 ≫= int16;
  mret (loan_id, <[token := face_amount]> TokenAmounts_new).

(** The original collateral of loan [loan_id] after the events
    [events]: that of the last event of [events] which carries one for
    this loan, or [initial] if there is none. *)
Definition last_original_collateral (loan_id : Z) (initial : TokenAmounts)
    (events : list event) : TokenAmounts :=
  foldl (λ current event,
           match collateral_snapshot event with
           | Ok (loan_id', x) =>
               if decide (loan_id' = loan_id) then x else current
           | Raise _ => current
           end)
        initial events.

Definition is_collateral_event (event : event) : Prop :=
  ev_key_name event = collateral_added
  ∨ ev_key_name event = collateral_withdrawal.
End OriginalCollateral.

(** The store holding loan 7 as [loan7_created] leaves it. *)
Definition loan7_entity : HashstackLoanEntity :=
  {| user := "0x51"; debt_category := 3;
     collateral := <["A" := 0]> (<["B" := 70]> ∅);
     debt := {["A" := 100]};
     original_collateral := {["B" := 50]};
     borrowed_collateral := {["B" := 20]} |}.

Definition loan7_state : HashstackState :=
  store (HashstackState_init None) 7 loan7_entity.

(* ------------------------------------------------------------------ *)
(** * Field layouts *)

Section Layouts.
Context `{Collaborators}.

(** The original-collateral fields of a creation event at the layout
    tried first (token at index 14, amount at index 17). *)
Definition first_layout (event : event) : res (string * Z) :=
  token ← getitem (data event) 14 ≫= get_symbol;
  face_amount ← getitem (data event) 17 ≫= int16;
  mret (token, face_amount).

(** The same fields one index earlier (13 and 16). *)
Definition second_layout (event : event) : res (string * Z) :=
  token ← getitem (data event) 13 ≫= get_symbol;
  face_amount ← getitem (data event) 16 ≫= int16;
  mret (token, face_amount).
(** The entity a creation event writes, given its decoded fields. *)
Definition created_entity (user : string) (debt_category : Z)
    (debt_token : string) (debt_face_amount : Z)
    (borrowed_collateral_token : string) (borrowed_collateral_face_amount : Z)
    (original_collateral : string * Z) : HashstackLoanEntity :=
  set_debt (<[debt_token := debt_face_amount]> TokenAmounts_new)
    (recompute_collateral
       (set_borrowed_collateral
          (<[borrowed_collateral_token := borrowed_collateral_face_amount]>
             TokenAmounts_new)
          (set_original_collateral
             (<[original_collateral.1 := original_collateral.2]>
                TokenAmounts_new)
             (HashstackLoanEntity_init user debt_category)))).
End Layouts.

(** The indices of [data] a handler reads whatever the event holds; for
    [new_loan], the indices read before the original-collateral fields. *)
Definition layout (k : key_name) : list nat :=
  match k with
  | new_loan => [0; 1; 2; 4; 6; 7; 10]
  | collateral_added | collateral_withdrawal => [9; 0; 3]
  | loan_withdrawal => [0; 1; 2; 4; 6; 7; 10]
  | loan_repaid | liquidated => [0; 1; 2; 6; 7; 10]
  | loan_swap => [0; 1; 14; 15; 16; 18; 20; 21; 24]
  | loan_interest_deducted => [11; 0; 3]
  end%nat.

(** Among them, the indices passed to [get_symbol]. *)
Definition token_fields (k : key_name) : list nat :=
  match k with
  | new_loan | loan_withdrawal | loan_repaid | liquidated => [2; 6]
  | collateral_added | collateral_withdrawal | loan_interest_deducted => [0]
  | loan_swap => [16; 20]
  end%nat.

(** The handlers that assert the event user to be the stored user. *)
Definition asserts_user (k : key_name) : Prop :=
  k = loan_withdrawal ∨ k = loan_repaid ∨ k = loan_swap ∨ k = liquidated.

(** The handlers that assert a zero borrowed-collateral amount. *)
Definition asserts_zero (k : key_name) : Prop :=
  k = loan_repaid ∨ k = liquidated.

(** The entity [loan7_created_again] writes. *)
Definition loan7_entity_again : HashstackLoanEntity :=
  {| user := "0x52"; debt_category := 1;
     collateral := <["A" := 3]> (<["B" := 0]> ∅);
     debt := {["B" := 5]};
     original_collateral := {["A" := 2]};
     borrowed_collateral := {["A" := 1]} |}.

(** Loan 7 withdrawn by a user who does not own it. *)
Definition loan7_withdrawn_by_other : event :=
  {| block_number := 125; transaction_hash := "0x10";
     ev_key_name := loan_withdrawal;
     data := loan_record "0x7" "0x52" "0xa" "0x64" "0xb" "0x14" "0x3"
             ++ ["0x5"; "0x0"; "0x65b8"] |}.

(* ------------------------------------------------------------------ *)
(** * Liquidation thresholds and the liquidable-debt scan *)

(** The threshold of a debt category as the specification words it:
    category 1 gives 1.06, category 2 gives 1.05, any other value 1.04. *)
Definition liquidation_threshold (category : Z) : Qc :=
  match category with
  | 1 => Decimal_1_06
  | 2 => Decimal_1_05
  | _ => Decimal_1_04
  end.

(** The running total the scan keeps: [total + x1 + x2 + ...], each sum
    being that of the decimal context. *)
Fixpoint add_all (total : Qc) (l : list Qc) : res Qc :=
  match l with
  | [] => Ok total
  | x :: l' => total' ← Decimal_add total x; add_all total' l'
  end.

Definition sum_decimals (l : list Qc) : res Qc := add_all 0%Qc l.

(** A health factor strictly below the threshold of a debt category; the
    infinite health factor is below none. *)
Definition below_threshold (health : health_factor) (category : Z) : Prop :=
  match health with
  | Finite h => (h < liquidation_threshold category)%Qc
  | Inf => False
  end.

Global Instance below_threshold_dec health category :
  Decision (below_threshold health category).
Proof. destruct health; simpl; apply _. Defined.

(** The loans the scan counts, for a health factor [HF] of each loan:
    those holding a strictly positive amount of the debt token whose
    health factor is below the threshold of their category. *)
Definition qualifies (debt_token : string)
    (HF : HashstackLoanEntity → health_factor)
    (loan_entity : HashstackLoanEntity) : Prop :=
  0 < amount (debt loan_entity) debt_token
  ∧ below_threshold (HF loan_entity) (debt_category loan_entity).

Global Instance qualifies_dec debt_token HF loan_entity :
  Decision (qualifies debt_token HF loan_entity).
Proof. unfold qualifies. apply _. Defined.

(** A second loan, well collateralised: debt of 100 [A] against 500 [B]. *)
Definition loan9_entity : HashstackLoanEntity :=
  {| user := "0x53"; debt_category := 3;
     collateral := <["A" := 0]> (<["B" := 500]> ∅);
     debt := {["A" := 100]};
     original_collateral := {["B" := 500]};
     borrowed_collateral := ∅ |}.

(** A third loan of the user of loan 7, repaid: collateral but no debt. *)
Definition loan11_entity : HashstackLoanEntity :=
  {| user := "0x51"; debt_category := 3;
     collateral := <["A" := 0]> (<["B" := 30]> ∅);
     debt := {["A" := 0]};
     original_collateral := {["B" := 30]};
     borrowed_collateral := {["B" := 0]} |}.

Definition three_loans : HashstackState :=
  store (store loan7_state 9 loan9_entity) 11 loan11_entity.

(** Prices: one USD for [A], two for [B]. *)
Definition scenario_prices : Prices :=
  <["A" := Qc_of_Z 1]> (<["B" := Qc_of_Z 2]> ∅).

(** The scenario's prices with the price of [B] replaced by one USD. *)
Definition scenario_prices_B1 : Prices := <["B" := Qc_of_Z 1]> scenario_prices.

(** The value in USD of a token-amount set at the scenario's scale
    factors, zero where it is undefined. *)
Definition scenario_usd (prices : Prices) (x : TokenAmounts) : Qc :=
  match token_amounts_usd (@TOKEN_DECIMAL_FACTORS scenario) x (Some prices) with
  | Ok v => v
  | Raise _ => 0%Qc
  end.

(** The health factor of a loan entity at the scenario's scale factors
    and given prices, infinite where it is undefined. *)
Definition scenario_health (prices : Prices) (l : HashstackLoanEntity)
  : health_factor :=
  match @compute_health_factor scenario l (Some prices) None None with
  | Ok health => health
  | Raise _ => Inf
  end.

(* ------------------------------------------------------------------ *)
(** * Further scenario events *)

(** A repayment of loan 7 in the transaction that created it. *)
Definition loan7_repaid_at_creation : event :=
  {| block_number := 100; transaction_hash := "0x01";
     ev_key_name := loan_repaid; data := data loan7_repaid |}.

(** Loan 7 swapped: the debt stays 100 [A], the borrowed collateral
    becomes 25 [A], the category 2. *)
Definition loan7_swapped : event :=
  {| block_number := 115; transaction_hash := "0x0c";
     ev_key_name := loan_swap;
     data := loan_record "0x7" "0x51" "0xa" "0x64" "0xb" "0x14" "0x3"
             ++ loan_record "0x7" "0x51" "0xa" "0x64" "0xa" "0x19" "0x2"
             ++ ["0x65ac"] |}.

(** Loan 7 as [loan7_swapped] leaves it. *)
Definition loan7_entity_swapped : HashstackLoanEntity :=
  {| user := "0x51"; debt_category := 2;
     collateral := <["A" := 25]> (<["B" := 50]> ∅);
     debt := {["A" := 100]};
     original_collateral := {["B" := 50]};
     borrowed_collateral := {["A" := 25]} |}.

Definition loan7_state_swapped : HashstackState :=
  store (HashstackState_init None) 7 loan7_entity_swapped.

(** A swap of loan 7 that reports a debt of 90 [A]. *)
Definition loan7_swapped_partly : event :=
  {| block_number := 115; transaction_hash := "0x0c";
     ev_key_name := loan_swap;
     data := loan_record "0x7" "0x51" "0xa" "0x64" "0xb" "0x14" "0x3"
             ++ loan_record "0x7" "0x51" "0xa" "0x5a" "0xa" "0x19" "0x2"
             ++ ["0x65ac"] |}.

(** Loan 7 withdrawn: debt of 100 [A], borrowed collateral of 95 [A]. *)
Definition loan7_withdrawn : event :=
  {| block_number := 105; transaction_hash := "0x05";
     ev_key_name := loan_withdrawal;
     data := loan_record "0x7" "0x51" "0xa" "0x64" "0xa" "0x5f" "0x3"
             ++ ["0x5"; "0x0"; "0x65a4"] |}.

(** [loan7_collateral_added] with another amount added, another
    timestamp, in another block. *)
Definition loan7_collateral_added_variant : event :=
  {| block_number := 111; transaction_hash := "0x0d";
     ev_key_name := collateral_added;
     data := collateral_record "0xb" "0x123" "0x50"
             ++ ["0x7"; "0xff"; "0x1"; "0x77"; "0x88"] |}.

(* ------------------------------------------------------------------ *)
(** * What the handlers write *)

Section Rewrites.
Context `{Collaborators}.

(** The entity the three collateral handlers leave: a new original
    collateral and the collateral recomputed. *)
Definition rewrite_original (x : TokenAmounts) (old : HashstackLoanEntity)
  : HashstackLoanEntity :=
  recompute_collateral (set_original_collateral x old).

(** The entity [loan_withdrawal], [loan_repaid] and [loan_swap] leave: a
    new borrowed collateral, the collateral recomputed, a new debt and a
    new debt category. *)
Definition rewrite_loan (borrowed debt' : TokenAmounts) (category : Z)
    (old : HashstackLoanEntity) : HashstackLoanEntity :=
  set_debt_category category
    (set_debt debt'
       (recompute_collateral (set_borrowed_collateral borrowed old))).

(** The entity [liquidated] leaves: as [rewrite_loan], with the original
    collateral emptied before the collateral is recomputed. *)
Definition rewrite_liquidated (borrowed debt' : TokenAmounts) (category : Z)
    (old : HashstackLoanEntity) : HashstackLoanEntity :=
  set_debt_category category
    (set_debt debt'
       (recompute_collateral
          (set_original_collateral TokenAmounts_new
             (set_borrowed_collateral borrowed old)))).

(** Every collateral entry of every loan is keyed by a known token, and
    every known token has an entry. *)
Definition collateral_tokens_known (self : HashstackState) : Prop :=
  ∀ loan_id entity,
    loan_entities self !! loan_id = Some entity →
    dom (collateral entity) = dom TOKEN_DECIMAL_FACTORS.
End Rewrites.

(** The handlers of the events that carry a collateral record. *)
Definition rewrites_collateral (k : key_name) : Prop :=
  k = collateral_added ∨ k = collateral_withdrawal
  ∨ k = loan_interest_deducted.

(** The handlers of the events that carry a loan record of an existing
    loan still open. *)
Definition rewrites_debt (k : key_name) : Prop :=
  k = loan_withdrawal ∨ k = loan_repaid ∨ k = loan_swap.

(** The index of [data] at which a handler reads the loan id. *)
Definition loan_id_field (k : key_name) : nat :=
  match k with
  | collateral_added | collateral_withdrawal => 9
  | loan_interest_deducted => 11
  | _ => 0
  end%nat.

(** The order of the loan ids lists each loan id of the mapping once. *)
Definition loan_ids_in_step (self : HashstackState) : Prop :=
  NoDup (loan_ids self)
  ∧ ∀ loan_id, loan_id ∈ loan_ids self ↔ is_Some (loan_entities self !! loan_id).

(** A collateral event for a loan that is in no store of the scenario. *)
Definition loan12_collateral_added : event :=
  {| block_number := 130; transaction_hash := "0x11";
     ev_key_name := collateral_added;
     data := collateral_record "0xb" "0x50" "0x1e"
             ++ ["0xc"; "0x1e"; "0x0"; "0x65c0"; "0x0"] |}.

(** Loan 13: an original collateral of [10 ^ 28 + 1] units of [B] and a
    borrowed collateral of one unit, a sum of 29 digits. *)
Definition loan13_created : event :=
  {| block_number := 160; transaction_hash := "0x4e";
     ev_key_name := new_loan;
     data := loan_record "0xd" "0x51" "0xa" "0x64" "0xb" "0x1" "0x3"
             ++ collateral_record "0xb" "0x204fce5e3e25026110000001"
                  "0x204fce5e3e25026110000001"
             ++ ["0x65e0"] |}.

(** The tokens of the scenario with a scale factor of [10 ^ 27] for
    [B]. *)
Definition fine_scenario : Collaborators :=
  reference_collaborators [(10, "A"); (11, "B")]
    (<["A" := Qc_of_Z 1]> (<["B" := Qc_of_Z (10 ^ 27)]> ∅)).

(** Loan 14: a debt of three units of [A] against a collateral worth
    3.119999999999999999999999999 units of [B]. *)
Definition loan14_entity : HashstackLoanEntity :=
  {| user := "0x55"; debt_category := 3;
     collateral := <["A" := 0]> (<["B" := 3119999999999999999999999999]> ∅);
     debt := {["A" := 3]};
     original_collateral := {["B" := 3119999999999999999999999999]};
     borrowed_collateral := {["B" := 0]} |}.

(** Prices of one USD for [A] and for [B]. *)
Definition unit_prices : Prices :=
  <["A" := Qc_of_Z 1]> (<["B" := Qc_of_Z 1]> ∅).

(** The tokens of the scenario with a scale factor of ten for [A]. *)
Definition tenth_scenario : Collaborators :=
  reference_collaborators [(10, "A"); (11, "B")]
    (<["A" := Qc_of_Z 10]> (<["B" := Qc_of_Z 1]> ∅)).

(** A loan without collateral whose debt is [amount] tenths of [A]. *)
Definition bare_debt (amount : Z) : HashstackLoanEntity :=
  {| user := "0x56"; debt_category := 3;
     collateral := <["A" := 0]> (<["B" := 0]> ∅);
     debt := {["A" := amount]};
     original_collateral := {["B" := 0]};
     borrowed_collateral := {["B" := 0]} |}.

(** One large and two small debts, the large one created first and
    created last. *)
Definition large_debt_first : HashstackState :=
  store (store (store (HashstackState_init None)
                  1 (bare_debt 99999999999999999999999999990))
           2 (bare_debt 4))
    3 (bare_debt 4).

Definition large_debt_last : HashstackState :=
  store (store (store (HashstackState_init None)
                  2 (bare_debt 4))
           3 (bare_debt 4))
    1 (bare_debt 99999999999999999999999999990).

(** The indices of [data] a handler may read: its fixed layout and, for
    [new_loan], the two layouts of the original collateral. *)
Definition fields_read (k : key_name) : list nat :=
  match k with
  | new_loan => layout k ++ [14; 17; 13; 16]
  | _ => layout k
  end%nat.

(** No amount of the set is strictly positive. *)
Definition no_positive_amount (x : TokenAmounts) : Prop :=
  ∀ token, ¬ 0 < amount x token.

(** A loan entity holds a strictly positive amount of the debt token. *)
Definition holds_debt (debt_token : string) (loan_entity : HashstackLoanEntity)
  : Prop :=
  0 < amount (debt loan_entity) debt_token.

Global Instance holds_debt_dec debt_token loan_entity :
  Decision (holds_debt debt_token loan_entity).
Proof. unfold holds_debt. apply _. Defined.

(** A price map without a price for [B], and the reference collaborators
    valuing against it. *)
Definition prices_without_B : Prices := <["A" := Qc_of_Z 1]> ∅.

(* ------------------------------------------------------------------ *)
(** * The exponent and the coefficient of a rounded value *)

(** [10 ^ k ≤ n / d], for [0 < d]. *)
Definition reaches (k n d : Z) : Prop :=
  d * 10 ^ Z.max k 0 ≤ n * 10 ^ Z.max (- k) 0.

(** The exponent [round_in] gives the result of rounding [q], and the
    coefficient that goes with it. *)
Definition exponent_in (prec Emin : Z) (q : Qc) : Z :=
  Z.max (adjusted (Z.abs (Qnum q)) (Z.pos (Qden q)) - (prec - 1))
    (Emin - prec + 1).

Definition coefficient_in (prec Emin : Z) (q : Qc) : Z :=
  let n := Z.abs (Qnum q) in
  let d := Z.pos (Qden q) in
  let e := exponent_in prec Emin q in
  if 0 <=? e then round_half_even n (d * 10 ^ e)
  else round_half_even (n * 10 ^ (- e)) d.

(** The absolute value of a decimal. *)
Definition Qc_abs (q : Qc) : Qc := if decide (0 ≤ q)%Qc then q else (- q)%Qc.

(* ------------------------------------------------------------------ *)
(** * Ordering of the event batch *)

Lemma string_compare_refl (s : string) : String.compare s s = Eq.
Proof.
  induction s as [|a s IH]; simpl; [done|].
  unfold Ascii.compare. by rewrite N.compare_refl.
Qed.

Lemma string_compare_lt_gt (s1 s2 : string) :
  String.compare s1 s2 = Lt ↔ String.compare s2 s1 = Gt.
Proof.
  rewrite (String.compare_antisym s1 s2).
  destruct (String.compare s2 s1); simpl; split; congruence.
Qed.

Lemma string_compare_lt_trans (s1 s2 s3 : string) :
  String.compare s1 s2 = Lt → String.compare s2 s3 = Lt →
  String.compare s1 s3 = Lt.
Proof.
  intros H12 H23.
  assert (String.le s1 s3) as Hle.
  { trans s2; unfold String.le, String.leb; [by rewrite H12|by rewrite H23]. }
  unfold String.le, String.leb in Hle.
  destruct (String.compare s1 s3) eqn:H13; [|done..].
  apply String.compare_eq_iff in H13 as ->.
  apply string_compare_lt_gt in H12. congruence.
Qed.

Lemma key_leb_spec b1 h1 o1 b2 h2 o2 :
  key_leb (b1, h1, o1) (b2, h2, o2) = true ↔
  b1 < b2 ∨ (b1 = b2 ∧ (String.compare h1 h2 = Lt ∨ (h1 = h2 ∧ o1 ≤ o2))).
Proof.
  unfold key_leb. split.
  - intros Hk. destruct (Z.compare_spec b1 b2); [subst; right; split; [done|]|by left|done].
    destruct (String.compare h1 h2) eqn:Hh; [|by left|done].
    right. split; [by apply String.compare_eq_iff|by apply Z.leb_le].
  - intros [Hlt|[-> [Hh|[-> Ho]]]].
    + apply Z.compare_lt_iff in Hlt. by rewrite Hlt.
    + by rewrite Z.compare_refl, Hh.
    + rewrite Z.compare_refl, string_compare_refl. by apply Z.leb_le.
Qed.

Lemma key_leb_total k1 k2 : key_leb k1 k2 = false → key_leb k2 k1 = true.
Proof.
  destruct k1 as [[b1 h1] o1], k2 as [[b2 h2] o2]. intros Hf.
  apply key_leb_spec. apply not_true_iff_false in Hf.
  rewrite key_leb_spec in Hf.
  destruct (Z.lt_trichotomy b1 b2) as [?|[->|?]]; [by destruct Hf; left|..|by left].
  right; split; [done|].
  destruct (String.compare h1 h2) eqn:Hh.
  - apply String.compare_eq_iff in Hh as ->.
    destruct (decide (o1 ≤ o2)); [destruct Hf; auto|right; split; [done|lia]].
  - destruct Hf; auto.
  - left. by apply string_compare_lt_gt.
Qed.

Lemma key_leb_trans k1 k2 k3 :
  key_leb k1 k2 = true → key_leb k2 k3 = true → key_leb k1 k3 = true.
Proof.
  destruct k1 as [[b1 h1] o1], k2 as [[b2 h2] o2], k3 as [[b3 h3] o3].
  rewrite !key_leb_spec.
  intros [?|[-> H12]] [?|[-> H23]]; [left; lia..|].
  right; split; [done|].
  destruct H12 as [?|[-> ?]], H23 as [?|[-> ?]]; eauto using string_compare_lt_trans.
  right; split; [done|lia].
Qed.

Lemma key_leb_antisym k1 k2 :
  key_leb k1 k2 = true → key_leb k2 k1 = true → k1 = k2.
Proof.
  destruct k1 as [[b1 h1] o1], k2 as [[b2 h2] o2].
  rewrite !key_leb_spec.
  intros [?|[-> H12]] [?|[? H21]]; [lia..|].
  destruct H12 as [H12|[-> ?]], H21 as [H21|[? ?]]; simplify_eq.
  - apply string_compare_lt_gt in H12. congruence.
  - by rewrite string_compare_refl in H12.
  - by rewrite string_compare_refl in H21.
  - repeat f_equal; lia.
Qed.

Global Instance key_le_trans : Transitive key_le.
Proof. intros ???. apply key_leb_trans. Qed.

Lemma insert_row_Permutation e l : insert_row e l ≡ₚ e :: l.
Proof.
  induction l as [|x l IH]; simpl; [done|].
  case_match; [done|]. rewrite IH. apply Permutation_swap.
Qed.

Lemma sort_values_Permutation l : sort_values l ≡ₚ l.
Proof.
  induction l as [|e l IH]; simpl; [done|].
  by rewrite insert_row_Permutation, IH.
Qed.

Lemma insert_row_Sorted e l : Sorted key_le l → Sorted key_le (insert_row e l).
Proof.
  induction 1 as [|x l Hl IH Hx]; simpl; [by repeat constructor|].
  destruct (key_leb (sort_key e) (sort_key x)) eqn:Hex.
  - repeat constructor; done.
  - constructor; [done|].
    apply key_leb_total in Hex.
    destruct Hx as [|y l Hxy]; simpl; [by constructor|].
    case_match; by constructor.
Qed.

Lemma sort_values_Sorted l : Sorted key_le (sort_values l).
Proof.
  induction l as [|e l IH]; simpl; [constructor|by apply insert_row_Sorted].
Qed.

(** Rows of one key stay in the order they had. *)
Lemma insert_row_filter_key k e l :
  Sorted key_le l →
  filter (λ x, sort_key x = k) (insert_row e l)
  = filter (λ x, sort_key x = k) (e :: l).
Proof.
  induction 1 as [|x l Hl IH Hx]; simpl; [done|].
  destruct (key_leb (sort_key e) (sort_key x)) eqn:Hex; [done|].
  rewrite (filter_cons _ x), IH, !filter_cons.
  destruct (decide (sort_key x = k)) as [Hxk|]; [|done].
  destruct (decide (sort_key e = k)) as [Hek|]; [|done].
  rewrite Hxk, Hek in Hex. destruct k as [[b h] o].
  apply not_true_iff_false in Hex. destruct Hex.
  apply key_leb_spec. right; split; [done|]. right; split; [done|lia].
Qed.

Lemma sort_values_filter_key k l :
  filter (λ x, sort_key x = k) (sort_values l)
  = filter (λ x, sort_key x = k) l.
Proof.
  induction l as [|e l IH]; simpl; [done|].
  rewrite insert_row_filter_key by apply sort_values_Sorted.
  by rewrite !filter_cons, IH.
Qed.

Lemma NoDup_fmap_elem_inj {A B} (f : A → B) (l : list A) x y :
  NoDup (f <$> l) → x ∈ l → y ∈ l → f x = f y → x = y.
Proof.
  induction l as [|a l IH]; simpl; [by intros _ ?%elem_of_nil|].
  rewrite NoDup_cons, !elem_of_cons. intros [Ha Hl] [->|Hx] [->|Hy] Hf; auto.
  - destruct Ha. rewrite Hf. by apply list_elem_of_fmap_2.
  - destruct Ha. rewrite <-Hf. by apply list_elem_of_fmap_2.
Qed.

Lemma get_events_unique l l' :
  l ≡ₚ l' → NoDup (sort_key <$> l) → get_events l' = get_events l.
Proof.
  intros Hperm Hnodup. unfold get_events.
  apply (Sorted_unique_strong key_le); [|apply sort_values_Sorted..|].
  - intros x1 x2 Hx1 Hx2 H12 H21.
    apply (NoDup_fmap_elem_inj sort_key l); [done|..].
    + by rewrite sort_values_Permutation, <-Hperm in Hx1.
    + by rewrite sort_values_Permutation in Hx2.
    + by apply key_leb_antisym.
  - by rewrite !sort_values_Permutation.
Qed.

(** C1 (as amended).  For every batch, [get_events] sorts the batch
    ascending and stably on (block_number, transaction_hash, order), with
    the order of an event type being new_loan 0, loan_swap 1, liquidated
    2, loan_withdrawal 3, loan_repaid 4, loan_interest_deducted 5,
    collateral_added 6 and collateral_withdrawal 7: the result is a
    permutation of the batch, it ascends on the key, and the events of
    any one key keep their input order.  Hence every permutation of a
    batch whose keys are pairwise distinct gives the same result. *)
Theorem get_events_stable_sort (l : list event) :
  (order new_loan = 0 ∧ order loan_swap = 1 ∧ order liquidated = 2
   ∧ order loan_withdrawal = 3 ∧ order loan_repaid = 4
   ∧ order loan_interest_deducted = 5 ∧ order collateral_added = 6
   ∧ order collateral_withdrawal = 7)
  ∧ get_events l ≡ₚ l
  ∧ Sorted key_le (get_events l)
  ∧ (∀ k, filter (λ e, sort_key e = k) (get_events l)
          = filter (λ e, sort_key e = k) l)
  ∧ (∀ l', l ≡ₚ l' → NoDup (sort_key <$> l) →
           get_events l' = get_events l).
Proof.
  split; [done|]. split; [apply sort_values_Permutation|].
  split; [apply sort_values_Sorted|].
  split; [intros k; apply sort_values_filter_key|].
  intros l'. apply get_events_unique.
Qed.

Lemma get_events_stable_sort_witness :
  get_events [loan7_liquidated; loan7_created]
  = get_events [loan7_created; loan7_liquidated]
  ∧ get_events [loan7_collateral_added_twice; loan7_collateral_added]
    ≡ₚ [loan7_collateral_added_twice; loan7_collateral_added].
Proof.
  split.
  - apply (get_events_stable_sort [loan7_created; loan7_liquidated]).
    + apply Permutation_swap.
    + apply (bool_decide_unpack _). vm_compute. exact I.
  - apply (get_events_stable_sort
             [loan7_collateral_added_twice; loan7_collateral_added]).
Defined.

(** C1 (as stated) fails: two events of one type in one transaction have
    the same key, and the output keeps them in the order of the input. *)
Lemma get_events_order_of_ties :
  [loan7_collateral_added; loan7_collateral_added_twice]
    ≡ₚ [loan7_collateral_added_twice; loan7_collateral_added]
  ∧ sort_key loan7_collateral_added = sort_key loan7_collateral_added_twice
  ∧ get_events [loan7_collateral_added; loan7_collateral_added_twice]
    ≠ get_events [loan7_collateral_added_twice; loan7_collateral_added].
Proof.
  split; [apply Permutation_swap|]. split; [reflexivity|].
  vm_compute. discriminate.
Qed.

(* ------------------------------------------------------------------ *)
(** * The decimal context *)

Lemma digits_upto_spec (fuel : nat) :
  ∀ x, 0 < x → x < 2 ^ (Z.of_nat fuel + 1) →
       10 ^ (digits_upto fuel x - 1) ≤ x < 10 ^ digits_upto fuel x
       ∧ 1 ≤ digits_upto fuel x.
Proof.
  induction fuel as [|fuel IH]; intros x Hx Hlt.
  - simpl in *. lia.
  - simpl digits_upto. destruct (Z.ltb_spec x 10) as [H10|H10].
    + simpl. lia.
    + destruct (IH (x / 10)) as [[Hlow Hhigh] Hone].
      * apply Z.div_str_pos. lia.
      * apply Z.div_lt_upper_bound; [lia|].
        replace (Z.of_nat (S fuel) + 1) with (Z.succ (Z.of_nat fuel + 1)) in Hlt
          by lia.
        rewrite Z.pow_succ_r in Hlt by lia. lia.
      * split; [|lia].
        replace (1 + digits_upto fuel (x / 10) - 1)
          with (Z.succ (digits_upto fuel (x / 10) - 1)) by lia.
        replace (1 + digits_upto fuel (x / 10))
          with (Z.succ (digits_upto fuel (x / 10))) by lia.
        rewrite !Z.pow_succ_r by lia.
        pose proof (Z.div_mod x 10 ltac:(lia)) as Hdiv.
        pose proof (Z.mod_pos_bound x 10 ltac:(lia)) as Hmod.
        lia.
Qed.

(** [digits x] is the number of decimal digits of [x]. *)
Lemma digits_spec (x : Z) :
  0 < x → 10 ^ (digits x - 1) ≤ x < 10 ^ digits x ∧ 1 ≤ digits x.
Proof.
  intros Hx. apply digits_upto_spec; [done|].
  rewrite Z2Nat.id by apply Z.log2_nonneg.
  replace (Z.log2 x + 1) with (Z.succ (Z.log2 x)) by lia.
  by apply Z.log2_spec.
Qed.

(** [round_half_even n d] is an integer nearest to [n / d]. *)
Lemma round_half_even_nearest (n d : Z) :
  0 < d → Z.abs (2 * (round_half_even n d * d - n)) ≤ d.
Proof.
  intros Hd. unfold round_half_even.
  pose proof (Z.div_mod n d ltac:(lia)) as Hdiv.
  pose proof (Z.mod_pos_bound n d Hd) as Hmod.
  destruct (Z.compare_spec (2 * (n mod d)) d); [|nia..].
  destruct (Z.even (n / d)); nia.
Qed.

Lemma round_amount_exact (s : Z) : Z.abs s < 10 ^ prec → round_amount s = s.
Proof.
  intros Hs. unfold round_amount.
  by destruct (Z.ltb_spec (Z.abs s) (10 ^ prec)); [|lia].
Qed.

(** A sum of amounts of at most 28 digits is exact. *)
Lemma Decimal_add_amount_exact (x y : Z) :
  Z.abs (x + y) < 10 ^ prec → Decimal_add_amount x y = x + y.
Proof. apply round_amount_exact. Qed.

(** A longer sum is off by at most half a unit of its 28th digit. *)
Lemma round_amount_nearest (s : Z) :
  10 ^ prec ≤ Z.abs s →
  2 * Z.abs (round_amount s - s) ≤ 10 ^ (digits (Z.abs s) - prec).
Proof.
  intros Hs. unfold round_amount.
  destruct (Z.ltb_spec (Z.abs s) (10 ^ prec)); [lia|].
  assert (0 < Z.abs s) as Hpos by (unfold prec in *; lia).
  destruct (digits_spec (Z.abs s) Hpos) as [[Hlow Hhigh] _].
  assert (prec ≤ digits (Z.abs s)) as Hk.
  { destruct (decide (prec ≤ digits (Z.abs s))); [done|].
    assert (10 ^ digits (Z.abs s) ≤ 10 ^ prec); [|lia].
    apply Z.pow_le_mono_r; lia. }
  set (k := digits (Z.abs s) - prec) in *.
  assert (0 < 10 ^ k) as Hp by (apply Z.pow_pos_nonneg; lia).
  pose proof (round_half_even_nearest (Z.abs s) (10 ^ k) Hp) as Hnear.
  destruct (Z.abs_spec s) as [[H0 Habs]|[H0 Habs]]; rewrite Habs in *.
  - replace (Z.sgn s) with 1 by lia. lia.
  - replace (Z.sgn s) with (-1) by lia. lia.
Qed.

Lemma Decimal_add_amount_0_0 : Decimal_add_amount 0 0 = 0.
Proof. reflexivity. Qed.

(** The context raises nothing but [Overflow] when it rounds. *)
Lemma round_in_Raise (prec Emin Emax : Z) (q : Qc) (e : exn) :
  round_in prec Emin Emax q = Raise e → e = Overflow.
Proof.
  unfold round_in. repeat case_match; congruence.
Qed.

Lemma round_context_0 : round_context 0 = Ok 0%Qc.
Proof. reflexivity. Qed.

Lemma Decimal_div_nonzero (x y : Qc) :
  y ≠ 0%Qc → Decimal_div x y = round_context (x / y)%Qc.
Proof. intros Hy. unfold Decimal_div. by rewrite decide_False. Qed.

Lemma Decimal_mul_0_r (x : Qc) : Decimal_mul x 0 = Ok 0%Qc.
Proof. unfold Decimal_mul. by rewrite Qcmult_0_r. Qed.

Lemma pow10_pos (k : Z) : 0 ≤ k → 0 < 10 ^ k.
Proof. intros. apply Z.pow_pos_nonneg; lia. Qed.

Lemma pow10_add (x y : Z) : 0 ≤ x → 0 ≤ y → 10 ^ (x + y) = 10 ^ x * 10 ^ y.
Proof. intros. by apply Z.pow_add_r. Qed.

(** Decides each [Z.max] of the goal. *)
Ltac max_norm :=
  repeat match goal with
         | |- context [Z.max ?a ?b] =>
             first [ replace (Z.max a b) with a by lia
                   | replace (Z.max a b) with b by lia ]
         end;
  rewrite ?Z.pow_0_r, ?Z.mul_1_r.

(** [adjusted n d] is the exponent of the leading digit of [n / d]. *)
Lemma adjusted_spec (n d : Z) :
  0 < n → 0 < d →
  d * 10 ^ Z.max (adjusted n d) 0 ≤ n * 10 ^ Z.max (- adjusted n d) 0
  ∧ n * 10 ^ Z.max (- (adjusted n d + 1)) 0
    < d * 10 ^ Z.max (adjusted n d + 1) 0.
Proof.
  intros Hn Hd. unfold adjusted.
  destruct (digits_spec n Hn) as [[Hn1 Hn2] Hn3].
  destruct (digits_spec d Hd) as [[Hd1 Hd2] Hd3].
  set (dn := digits n) in *. set (dd := digits d) in *.
  destruct (Z.leb_spec 0 (dn - dd)) as [Ha|Ha].
  - assert (10 ^ dn = 10 ^ (dd - 1) * 10 ^ (dn - dd + 1)) as Hdn.
    { rewrite <-pow10_add by lia. f_equal. lia. }
    assert (0 < 10 ^ (dn - dd + 1)) by (apply pow10_pos; lia).
    assert (0 < 10 ^ (dn - dd)) by (apply pow10_pos; lia).
    destruct (Z.leb_spec (d * 10 ^ (dn - dd)) n) as [HT|HT].
    + max_norm. split; [lia|]. rewrite Hdn in Hn2. nia.
    + replace (dn - dd - 1 + 1) with (dn - dd) by lia.
      destruct (decide (dn - dd = 0)) as [Hz|Hz].
      * replace (dn - dd - 1) with (-1) by lia. rewrite Hz in *.
        max_norm. rewrite Z.pow_0_r, Z.mul_1_r in HT.
        split; [|lia].
        assert (10 ^ dd = 10 ^ (dn - 1) * 10 ^ 1) as Hdd.
        { rewrite <-pow10_add by lia. f_equal. lia. }
        rewrite Z.pow_1_r in *. lia.
      * max_norm. split; [|lia].
        assert (10 ^ (dn - 1) = 10 ^ dd * 10 ^ (dn - dd - 1)) as Hdd.
        { rewrite <-pow10_add by lia. f_equal. lia. }
        assert (0 < 10 ^ (dn - dd - 1)) by (apply pow10_pos; lia).
        rewrite Hdd in Hn1. nia.
  - assert (0 < 10 ^ (-(dn - dd))) by (apply pow10_pos; lia).
    destruct (Z.leb_spec d (n * 10 ^ (-(dn - dd)))) as [HT|HT].
    + max_norm. split; [lia|].
      assert (10 ^ (dd - 1) = 10 ^ dn * 10 ^ (- (dn - dd + 1))) as Hdd.
      { rewrite <-pow10_add by lia. f_equal. lia. }
      assert (0 < 10 ^ (- (dn - dd + 1))) by (apply pow10_pos; lia).
      rewrite Hdd in Hd1. nia.
    + replace (dn - dd - 1 + 1) with (dn - dd) by lia.
      max_norm. split; [|lia].
      assert (10 ^ dd = 10 ^ (dn - 1) * 10 ^ (- (dn - dd - 1))) as Hdd.
      { rewrite <-pow10_add by lia. f_equal. lia. }
      assert (0 < 10 ^ (- (dn - dd - 1))) by (apply pow10_pos; lia).
      rewrite Hdd in Hd2. nia.
Qed.

Lemma round_half_even_bounds (n d l u : Z) :
  0 < d → (d * l ≤ n → l ≤ round_half_even n d)
          ∧ (n ≤ d * u → round_half_even n d ≤ u).
Proof.
  intros Hd. unfold round_half_even.
  pose proof (Z.div_mod n d ltac:(lia)) as Hdiv.
  pose proof (Z.mod_pos_bound n d Hd) as Hmod.
  split; intros Hb.
  - assert (l ≤ n / d) by (apply Z.div_le_lower_bound; lia).
    destruct (Z.compare_spec (2 * (n mod d)) d); [|lia..].
    destruct (Z.even (n / d)); lia.
  - destruct (decide (n / d < u)) as [Hlt|Hge].
    + destruct (Z.compare_spec (2 * (n mod d)) d); [|lia..].
      destruct (Z.even (n / d)); lia.
    + assert (n / d = u ∧ n mod d = 0) as [Hq Hr] by nia.
      rewrite Hr. destruct (Z.compare_spec (2 * 0) d); lia.
Qed.

Lemma scale_0 (e : Z) : scale 0 e = 0%Qc.
Proof.
  unfold scale. apply Qc_is_canon. destruct (0 <=? e).
  - by rewrite Z.mul_0_l.
  - unfold Q2Qc. cbn [this]. rewrite Qred_correct.
    unfold Qeq. simpl. reflexivity.
Qed.

Lemma Qnum_0 (q : Qc) : Qnum q = 0 → q = 0%Qc.
Proof.
  intros Hq. apply Qc_is_canon. destruct q as [[n d] Hc]. simpl in *.
  subst. done.
Qed.

Lemma round_in_Ok (prec Emin Emax : Z) (q r : Qc) :
  round_in prec Emin Emax q = Ok r →
  r = scale (Z.sgn (Qnum q) * coefficient_in prec Emin q)
        (exponent_in prec Emin q).
Proof.
  unfold round_in, coefficient_in, exponent_in.
  destruct (Z.eqb_spec (Z.abs (Qnum q)) 0) as [Hn|Hn].
  { intros [= <-]. assert (Qnum q = 0) as Hq by lia.
    rewrite Hq. simpl. rewrite scale_0. by apply Qnum_0. }
  set (e := Z.max _ _). set (c := if 0 <=? e then _ else _).
  destruct (Z.eqb_spec c 0) as [Hc|Hc].
  { intros [= <-]. rewrite Hc, Z.mul_0_r, scale_0. done. }
  destruct (Emax <? e + digits c - 1); [done|]. by intros [= <-].
Qed.

(** The coefficient is nearest to the value in units of the exponent. *)
Lemma coefficient_nearest (prec Emin : Z) (q : Qc) :
  let n := Z.abs (Qnum q) in
  let d := Z.pos (Qden q) in
  let e := exponent_in prec Emin q in
  let c := coefficient_in prec Emin q in
  2 * Z.abs (c * (d * 10 ^ Z.max e 0) - n * 10 ^ Z.max (- e) 0)
  ≤ d * 10 ^ Z.max e 0.
Proof.
  intros n d e c. unfold c, coefficient_in. fold n d e.
  destruct (Z.leb_spec 0 e) as [He|He]; max_norm.
  - assert (0 < d * 10 ^ e) as Hpos.
    { apply Z.mul_pos_pos; [done|]. by apply pow10_pos. }
    pose proof (round_half_even_nearest n (d * 10 ^ e) Hpos). lia.
  - pose proof (round_half_even_nearest (n * 10 ^ (- e)) d ltac:(done)). lia.
Qed.

Lemma scale_Qeq (C e : Z) :
  (this (scale C e) ==
   if 0 <=? e then inject_Z (C * 10 ^ e)
   else Qmake C (Z.to_pos (10 ^ (- e))))%Q.
Proof.
  unfold scale. destruct (0 <=? e).
  - reflexivity.
  - unfold Q2Qc. cbn [this]. apply Qred_correct.
Qed.

Lemma Qc_abs_Qabs (q : Qc) : (this (Qc_abs q) == Qabs (this q))%Q.
Proof.
  unfold Qc_abs. destruct (decide (0 ≤ q)%Qc) as [Hq|Hq].
  - symmetry. by apply Qabs_pos.
  - unfold Qcopp, Q2Qc. cbn [this]. rewrite Qred_correct.
    symmetry. apply Qabs_neg. apply Qcnot_le_lt in Hq.
    by apply Qclt_le_weak in Hq.
Qed.

Lemma Qc_distance (q : Qc) (C e k : Z) :
  k * Z.abs (C * (Z.pos (Qden q) * 10 ^ Z.max e 0)
             - Qnum q * 10 ^ Z.max (- e) 0)
  ≤ Z.abs (Qnum q) * 10 ^ Z.max (- e) 0 →
  (Qc_abs (scale C e - q) * Qc_of_Z k ≤ Qc_abs q)%Qc.
Proof.
  intros Hz. unfold Qcle. rewrite Qc_abs_Qabs.
  unfold Qcmult, Q2Qc. cbn [this]. rewrite Qred_correct, Qc_abs_Qabs.
  unfold Qcminus, Qcplus, Qcopp, Q2Qc. cbn [this].
  rewrite !Qred_correct. rewrite scale_Qeq.
  change (this (Qc_of_Z k)) with (inject_Z k).
  destruct q as [[N dq] Hcanon]. cbn [this Qnum Qden] in *.
  destruct (Z.leb_spec 0 e) as [He|He]; revert Hz; max_norm; intros Hz.
  - unfold Qle, Qabs, Qmult, Qplus, Qopp, inject_Z. cbn [Qnum Qden].
    rewrite !Pos2Z.inj_mul. nia.
  - unfold Qle, Qabs, Qmult, Qplus, Qopp, inject_Z. cbn [Qnum Qden].
    rewrite !Pos2Z.inj_mul. 
    assert (0 < 10 ^ (- e)) as Hp by (apply pow10_pos; lia).
    rewrite Z2Pos.id by done. nia.
Qed.

Lemma reaches_mono (k k' n d : Z) :
  0 ≤ n → 0 < d → k' ≤ k → reaches k n d → reaches k' n d.
Proof.
  unfold reaches. intros Hn Hd Hk.
  destruct (Z.le_gt_cases 0 k') as [Hk'|Hk'], (Z.le_gt_cases 0 k) as [Hk0|Hk0];
    try lia; max_norm; intros Hle.
  - pose proof (Z.pow_le_mono_r 10 k' k ltac:(lia) Hk).
    pose proof (pow10_pos k' Hk'). nia.
  - pose proof (pow10_pos k Hk0). pose proof (pow10_pos (- k') ltac:(lia)). nia.
  - pose proof (Z.pow_le_mono_r 10 (- k) (- k') ltac:(lia) ltac:(lia)).
    pose proof (pow10_pos (- k) ltac:(lia)). nia.
Qed.

Lemma adjusted_reaches (n d : Z) :
  0 < n → 0 < d → reaches (adjusted n d) n d ∧ ¬ reaches (adjusted n d + 1) n d.
Proof.
  intros Hn Hd. destruct (adjusted_spec n d Hn Hd) as [Hlow Hhigh].
  unfold reaches. split; [done|]. lia.
Qed.

Lemma Qc_abs_reaches (q : Qc) (k : Z) :
  (scale 1 k ≤ Qc_abs q)%Qc → reaches k (Z.abs (Qnum q)) (Z.pos (Qden q)).
Proof.
  unfold Qcle, reaches. rewrite Qc_abs_Qabs, scale_Qeq.
  destruct q as [[N dq] Hcanon]. cbn [this Qnum Qden].
  destruct (Z.leb_spec 0 k) as [Hk|Hk]; max_norm.
  - unfold Qle, Qabs, inject_Z. cbn [Qnum Qden]. lia.
  - unfold Qle, Qabs. cbn [Qnum Qden].
    assert (0 < 10 ^ (- k)) as Hp by (apply pow10_pos; lia).
    rewrite Z2Pos.id by done. lia.
Qed.

(** A value that reaches [10 ^ Emin] is rounded to [prec] digits. *)
Lemma exponent_in_normal (prec Emin : Z) (q : Qc) :
  (scale 1 Emin ≤ Qc_abs q)%Qc → Qnum q ≠ 0 →
  exponent_in prec Emin q
  = adjusted (Z.abs (Qnum q)) (Z.pos (Qden q)) - (prec - 1).
Proof.
  intros Hq%Qc_abs_reaches Hn. unfold exponent_in.
  destruct (adjusted_reaches (Z.abs (Qnum q)) (Z.pos (Qden q)))
    as [_ Hhigh]; [lia|done|].
  destruct (decide (Emin ≤ adjusted (Z.abs (Qnum q)) (Z.pos (Qden q))));
    [lia|].
  destruct Hhigh. eapply reaches_mono; [lia|done| |done]. lia.
Qed.

(** The result of rounding a value that reaches [10 ^ Emin] is off by
    at most half a unit of its last digit: by five parts in
    [10 ^ prec]. *)
Lemma round_in_accurate (prec Emin Emax : Z) (q r : Qc) :
  1 ≤ prec →
  (scale 1 Emin ≤ Qc_abs q)%Qc →
  round_in prec Emin Emax q = Ok r →
  (Qc_abs (r - q) * Qc_of_Z (2 * 10 ^ (prec - 1)) ≤ Qc_abs q)%Qc.
Proof.
  intros Hprec Hnormal Hr.
  destruct (decide (Qnum q = 0)) as [Hq|Hq].
  { revert Hr. unfold round_in. rewrite Hq. simpl. intros [= <-].
    apply Qnum_0 in Hq as ->.
    apply (bool_decide_unpack _). by destruct prec. }
  rewrite (round_in_Ok _ _ _ _ _ Hr). apply Qc_distance.
  pose proof (coefficient_nearest prec Emin q) as Hnear. simpl in Hnear.
  rewrite (exponent_in_normal _ _ _ Hnormal Hq) in *.
  destruct (adjusted_reaches (Z.abs (Qnum q)) (Z.pos (Qden q)))
    as [Hlow _]; [lia|done|]. unfold reaches in Hlow.
  set (a := adjusted _ _) in *. set (c := coefficient_in _ _ _) in *.
  set (d := Z.pos (Qden q)) in *.
  assert (0 < d) as Hd by done.
  assert (0 < 10 ^ (prec - 1)) as Hp by (apply pow10_pos; lia).
  assert (Z.abs (Z.sgn (Qnum q) * c * (d * 10 ^ Z.max (a - (prec - 1)) 0)
                 - Qnum q * 10 ^ Z.max (- (a - (prec - 1))) 0)
          = Z.abs (c * (d * 10 ^ Z.max (a - (prec - 1)) 0)
                   - Z.abs (Qnum q) * 10 ^ Z.max (- (a - (prec - 1))) 0))
    as ->.
  { destruct (Z.abs_spec (Qnum q)) as [[H0 ->]|[H0 ->]].
    - replace (Z.sgn (Qnum q)) with 1 by lia. f_equal. lia.
    - replace (Z.sgn (Qnum q)) with (-1) by lia.
      rewrite <-Z.abs_opp. f_equal. lia. }
  set (n := Z.abs (Qnum q)) in *.
  assert (d * 10 ^ Z.max (a - (prec - 1)) 0 * 10 ^ (prec - 1)
          ≤ n * 10 ^ Z.max (- (a - (prec - 1))) 0) as Hscale.
  { destruct (Z.le_gt_cases 0 (a - (prec - 1))) as [He|He].
    - revert Hlow. max_norm. intros Hlow.
      rewrite <-Z.mul_assoc, <-pow10_add by lia.
      by replace (a - (prec - 1) + (prec - 1)) with a by lia.
    - destruct (Z.le_gt_cases 0 a) as [Ha|Ha]; revert Hlow; max_norm;
        intros Hlow.
      + replace (prec - 1) with (a + - (a - (prec - 1))) at 1 by lia.
        rewrite pow10_add by lia.
        pose proof (pow10_pos (- (a - (prec - 1))) ltac:(lia)). nia.
      + replace (- (a - (prec - 1))) with (- a + (prec - 1)) by lia.
        rewrite pow10_add by lia. nia. }
  nia.
Qed.

Lemma reaches_Qc_abs (q : Qc) (k : Z) :
  reaches k (Z.abs (Qnum q)) (Z.pos (Qden q)) → (scale 1 k ≤ Qc_abs q)%Qc.
Proof.
  unfold Qcle, reaches. rewrite Qc_abs_Qabs, scale_Qeq.
  destruct q as [[N dq] Hcanon]. cbn [this Qnum Qden].
  destruct (Z.leb_spec 0 k) as [Hk|Hk]; max_norm.
  - unfold Qle, Qabs, inject_Z. cbn [Qnum Qden]. lia.
  - unfold Qle, Qabs. cbn [Qnum Qden].
    assert (0 < 10 ^ (- k)) as Hp by (apply pow10_pos; lia).
    rewrite Z2Pos.id by done. lia.
Qed.

Lemma digits_le (c k : Z) : 0 < c → c < 10 ^ k → digits c ≤ k.
Proof.
  intros Hc Hk. destruct (digits_spec c Hc) as [[Hlow _] Hone].
  destruct (decide (digits c ≤ k)) as [|Hgt]; [done|].
  assert (10 ^ k ≤ 10 ^ (digits c - 1)); [|lia].
  apply Z.pow_le_mono_r; lia.
Qed.

Lemma digits_ge (c k : Z) : 0 ≤ k → 10 ^ k ≤ c → k + 1 ≤ digits c.
Proof.
  intros Hk Hc. pose proof (pow10_pos k Hk).
  destruct (digits_spec c ltac:(lia)) as [[_ Hhigh] Hone].
  destruct (decide (k + 1 ≤ digits c)) as [|Hlt]; [done|].
  assert (10 ^ digits c ≤ 10 ^ k); [|lia].
  apply Z.pow_le_mono_r; lia.
Qed.

(** The coefficient of a value that reaches [10 ^ Emin] has [prec]
    digits, or is [10 ^ prec]. *)
Lemma coefficient_in_normal (prec Emin : Z) (q : Qc) :
  1 ≤ prec → Qnum q ≠ 0 →
  Emin ≤ adjusted (Z.abs (Qnum q)) (Z.pos (Qden q)) →
  10 ^ (prec - 1) ≤ coefficient_in prec Emin q ≤ 10 ^ prec.
Proof.
  intros Hprec Hq Hnormal. unfold coefficient_in, exponent_in.
  destruct (adjusted_spec (Z.abs (Qnum q)) (Z.pos (Qden q)))
    as [Hlow Hhigh]; [lia|done|].
  set (n := Z.abs (Qnum q)) in *. set (d := Z.pos (Qden q)) in *.
  set (a := adjusted n d) in *.
  replace (Z.max (a - (prec - 1)) (Emin - prec + 1)) with (a - (prec - 1))
    by lia.
  assert (0 < d) as Hd by done.
  assert (0 < 10 ^ (prec - 1)) as Hp by (apply pow10_pos; lia).
  assert (10 ^ prec = 10 ^ (prec - 1) * 10) as Hp10.
  { replace prec with (prec - 1 + 1) at 1 by lia.
    by rewrite pow10_add, Z.pow_1_r by lia. }
  destruct (Z.leb_spec 0 (a - (prec - 1))) as [He|He].
  - revert Hlow Hhigh. max_norm. intros Hlow Hhigh.
    assert (10 ^ a = 10 ^ (a - (prec - 1)) * 10 ^ (prec - 1)) as Ha.
    { rewrite <-pow10_add by lia. f_equal. lia. }
    assert (10 ^ (a + 1) = 10 ^ (a - (prec - 1)) * 10 ^ prec) as Ha1.
    { rewrite <-pow10_add by lia. f_equal. lia. }
    pose proof (pow10_pos (a - (prec - 1)) He).
    destruct (round_half_even_bounds n (d * 10 ^ (a - (prec - 1)))
                (10 ^ (prec - 1)) (10 ^ prec)) as [Hl Hu]; [nia|].
    split; [apply Hl|apply Hu]; nia.
  - pose proof (pow10_pos (- (a - (prec - 1))) ltac:(lia)).
    destruct (round_half_even_bounds (n * 10 ^ (- (a - (prec - 1)))) d
                (10 ^ (prec - 1)) (10 ^ prec)) as [Hl Hu]; [done|].
    destruct (Z.le_gt_cases 0 a) as [Ha|Ha].
    + revert Hlow Hhigh. max_norm. intros Hlow Hhigh.
      assert (10 ^ (prec - 1) = 10 ^ a * 10 ^ (- (a - (prec - 1)))) as Hpa.
      { rewrite <-pow10_add by lia. f_equal. lia. }
      assert (10 ^ (a + 1) = 10 ^ a * 10) as Ha1.
      { by rewrite pow10_add, Z.pow_1_r by lia. }
      pose proof (pow10_pos a Ha).
      split; [apply Hl|apply Hu]; nia.
    + assert (10 ^ (- (a - (prec - 1))) = 10 ^ (- a) * 10 ^ (prec - 1)) as Hpa.
      { rewrite <-pow10_add by lia. f_equal. lia. }
      pose proof (pow10_pos (- a) ltac:(lia)).
      destruct (decide (a = -1)) as [->|Hne].
      * revert Hlow Hhigh. max_norm. change (- -1) with 1 in *.
        rewrite Z.pow_1_r in *. intros Hlow Hhigh.
        split; [apply Hl|apply Hu]; nia.
      * revert Hlow Hhigh. max_norm. intros Hlow Hhigh.
        assert (10 ^ (- a) = 10 ^ (- (a + 1)) * 10) as Ha1.
        { replace (- a) with (- (a + 1) + 1) at 1 by lia.
          by rewrite pow10_add, Z.pow_1_r by lia. }
        pose proof (pow10_pos (- (a + 1)) ltac:(lia)).
        split; [apply Hl|apply Hu]; nia.
Qed.

Lemma coefficient_in_upper (prec Emin : Z) (q : Qc) (j : Z) :
  0 ≤ j →
  ¬ reaches (exponent_in prec Emin q + j) (Z.abs (Qnum q)) (Z.pos (Qden q)) →
  coefficient_in prec Emin q ≤ 10 ^ j.
Proof.
  intros Hj Hhigh. unfold coefficient_in.
  set (n := Z.abs (Qnum q)) in *. set (d := Z.pos (Qden q)) in *.
  set (e := exponent_in prec Emin q) in *.
  assert (0 < d) as Hd by done. assert (0 ≤ n) as Hn by lia.
  pose proof (pow10_pos j Hj). unfold reaches in Hhigh.
  destruct (Z.leb_spec 0 e) as [He|He].
  - revert Hhigh. max_norm. intros Hhigh.
    pose proof (pow10_pos e He).
    destruct (round_half_even_bounds n (d * 10 ^ e) 0 (10 ^ j)) as [_ Hu];
      [nia|]. apply Hu.
    rewrite <-Z.mul_assoc, <-pow10_add by lia. lia.
  - pose proof (pow10_pos (- e) ltac:(lia)).
    destruct (round_half_even_bounds (n * 10 ^ (- e)) d 0 (10 ^ j))
      as [_ Hu]; [done|]. apply Hu.
    destruct (Z.le_gt_cases 0 (e + j)) as [Hej|Hej]; revert Hhigh; max_norm;
      intros Hhigh.
    + assert (10 ^ j = 10 ^ (e + j) * 10 ^ (- e)) as ->.
      { rewrite <-pow10_add by lia. f_equal. lia. }
      nia.
    + assert (10 ^ (- e) = 10 ^ (- (e + j)) * 10 ^ j) as ->.
      { rewrite <-pow10_add by lia. f_equal. lia. }
      nia.
Qed.

Lemma coefficient_in_nonneg (prec Emin : Z) (q : Qc) :
  0 ≤ coefficient_in prec Emin q.
Proof.
  unfold coefficient_in.
  set (n := Z.abs (Qnum q)) in *. set (d := Z.pos (Qden q)) in *.
  set (e := exponent_in prec Emin q) in *.
  assert (0 < d) as Hd by done. assert (0 ≤ n) as Hn by lia.
  destruct (Z.leb_spec 0 e) as [He|He].
  - pose proof (pow10_pos e He).
    destruct (round_half_even_bounds n (d * 10 ^ e) 0 0) as [Hl _]; [nia|].
    apply Hl. lia.
  - pose proof (pow10_pos (- e) ltac:(lia)).
    destruct (round_half_even_bounds (n * 10 ^ (- e)) d 0 0) as [Hl _];
      [done|]. apply Hl. nia.
Qed.

Lemma adjusted_lt (n d k : Z) :
  0 < n → 0 < d → ¬ reaches k n d → adjusted n d < k.
Proof.
  intros Hn Hd Hk. destruct (adjusted_reaches n d Hn Hd) as [Hlow _].
  destruct (decide (adjusted n d < k)); [done|].
  destruct Hk. eapply reaches_mono; [lia|done| |done]. lia.
Qed.

Lemma adjusted_ge (n d k : Z) :
  0 < n → 0 < d → reaches k n d → k ≤ adjusted n d.
Proof.
  intros Hn Hd Hk. destruct (adjusted_reaches n d Hn Hd) as [_ Hhigh].
  destruct (decide (k ≤ adjusted n d)); [done|].
  destruct Hhigh. eapply reaches_mono; [lia|done| |done]. lia.
Qed.

(** A value below [10 ^ Emax] is rounded without [Overflow]. *)
Lemma round_in_returns (prec Emin Emax : Z) (q : Qc) :
  1 ≤ prec → Emin ≤ Emax →
  ¬ reaches Emax (Z.abs (Qnum q)) (Z.pos (Qden q)) →
  ∃ r, round_in prec Emin Emax q = Ok r.
Proof.
  intros Hprec Hrange Hq. unfold round_in.
  destruct (Z.eqb_spec (Z.abs (Qnum q)) 0) as [Hn|Hn]; [by eexists|].
  fold (exponent_in prec Emin q). fold (coefficient_in prec Emin q).
  destruct (Z.eqb_spec (coefficient_in prec Emin q) 0) as [Hc|Hc];
    [by eexists|].
  pose proof (coefficient_in_nonneg prec Emin q) as Hc0.
  pose proof (adjusted_lt (Z.abs (Qnum q)) (Z.pos (Qden q)) Emax
                ltac:(lia) ltac:(done) Hq) as Ha.
  destruct (adjusted_reaches (Z.abs (Qnum q)) (Z.pos (Qden q)))
    as [_ Hhigh]; [lia|done|].
  set (a := adjusted _ _) in *.
  assert (exponent_in prec Emin q = Z.max (a - (prec - 1)) (Emin - prec + 1))
    as He by done.
  remember (Z.max (a + 1) Emin) as m eqn:Hm.
  assert (coefficient_in prec Emin q
          ≤ 10 ^ (m - exponent_in prec Emin q)) as Hupper.
  { apply coefficient_in_upper; [lia|].
    replace (exponent_in prec Emin q + (m - exponent_in prec Emin q))
      with m by lia.
    intros Hreach. destruct Hhigh. eapply reaches_mono; [lia|done| |done]. lia. }
  assert (digits (coefficient_in prec Emin q)
          ≤ m - exponent_in prec Emin q + 1) as Hdigits.
  { apply digits_le; [lia|].
    rewrite pow10_add, Z.pow_1_r by lia.
    pose proof (pow10_pos (m - exponent_in prec Emin q) ltac:(lia)). lia. }
  destruct (Z.ltb_spec Emax
              (exponent_in prec Emin q
               + digits (coefficient_in prec Emin q) - 1)); [lia|].
  by eexists.
Qed.

(** A value that reaches [10 ^ (Emax + 1)] raises [Overflow]. *)
Lemma round_in_overflows (prec Emin Emax : Z) (q : Qc) :
  1 ≤ prec → Emin ≤ Emax →
  reaches (Emax + 1) (Z.abs (Qnum q)) (Z.pos (Qden q)) →
  round_in prec Emin Emax q = Raise Overflow.
Proof.
  intros Hprec Hrange Hq.
  assert (Qnum q ≠ 0) as Hn.
  { intros Hn. unfold reaches in Hq. rewrite Hn in Hq. simpl in Hq.
    pose proof (Z.pow_pos_nonneg 10 (Z.max (Emax + 1) 0) ltac:(lia)
                  ltac:(lia)). nia. }
  pose proof (adjusted_ge (Z.abs (Qnum q)) (Z.pos (Qden q)) (Emax + 1)
                ltac:(lia) ltac:(done) Hq) as Ha.
  destruct (coefficient_in_normal prec Emin q Hprec Hn ltac:(lia))
    as [Hlow _].
  pose proof (digits_ge _ (prec - 1) ltac:(lia) Hlow) as Hdigits.
  pose proof (pow10_pos (prec - 1) ltac:(lia)).
  unfold round_in.
  destruct (Z.eqb_spec (Z.abs (Qnum q)) 0) as [|_]; [lia|].
  fold (exponent_in prec Emin q). fold (coefficient_in prec Emin q).
  destruct (Z.eqb_spec (coefficient_in prec Emin q) 0) as [|_]; [lia|].
  assert (exponent_in prec Emin q
          = adjusted (Z.abs (Qnum q)) (Z.pos (Qden q)) - (prec - 1)) as ->.
  { unfold exponent_in. lia. }
  by destruct (Z.ltb_spec Emax
                 (adjusted (Z.abs (Qnum q)) (Z.pos (Qden q)) - (prec - 1)
                  + digits (coefficient_in prec Emin q) - 1)); [|lia].
Qed.

(* ------------------------------------------------------------------ *)
(** * Reasoning about results *)

Lemma bind_Ok {A B} (m : res A) (f : A → res B) (b : B) :
  m ≫= f = Ok b ↔ ∃ a, m = Ok a ∧ f a = Ok b.
Proof.
  destruct m as [a|e]; simpl.
  - split; [by exists a|]. by intros (a' & [= <-] & ?).
  - split; [done|]. by intros (a' & [=] & ?).
Qed.

Lemma bind_Raise {A B} (m : res A) (f : A → res B) (e : exn) :
  m = Raise e → m ≫= f = Raise e.
Proof. by intros ->. Qed.

Lemma bind_Ok_l {A B} (m : res A) (f : A → res B) (a : A) :
  m = Ok a → m ≫= f = f a.
Proof. by intros ->. Qed.

Lemma assert_Ok (c : bool) (u : unit) : assert c = Ok u ↔ c = true.
Proof. destruct c, u; simpl; split; congruence. Qed.

Lemma load_Ok (self : HashstackState) loan_id entity :
  load self loan_id = Ok entity ↔ loan_entities self !! loan_id = Some entity.
Proof. unfold load. destruct (_ !! _); split; congruence. Qed.

Global Instance Ok_inj {A} : Inj (=) (=) (@Ok A).
Proof. by intros ?? [= ->]. Qed.

(** Splits a successful run of a handler into its successful steps. *)
Ltac res_inv H :=
  repeat match type of H with
  | _ ≫= _ = Ok _ =>
      let x := fresh "x" in let Hx := fresh "Hx" in
      apply bind_Ok in H as (x & Hx & H)
  | (let '(_, _) := ?p in _) = Ok _ => destruct p
  | mret _ = Ok _ => apply (inj Ok) in H
  | Ok _ = Ok _ => apply (inj Ok) in H
  end.

(* ------------------------------------------------------------------ *)
(** * The collateral invariant *)

Create HintDb invariant.

Section InvariantProofs.
Context `{Collaborators}.

Lemma sum_collateral_lookup entity t :
  t ∈ dom TOKEN_DECIMAL_FACTORS →
  sum_collateral entity !! t
  = Some (Decimal_add_amount (amount (original_collateral entity) t)
            (amount (borrowed_collateral entity) t)).
Proof.
  intros [factor Ht]%elem_of_dom. unfold sum_collateral.
  by rewrite map_lookup_imap, Ht.
Qed.

Lemma sum_collateral_lookup_None entity t :
  t ∉ dom TOKEN_DECIMAL_FACTORS → sum_collateral entity !! t = None.
Proof.
  intros Ht%not_elem_of_dom. unfold sum_collateral.
  by rewrite map_lookup_imap, Ht.
Qed.

Lemma recompute_collateral_is_sum entity :
  collateral_is_sum (recompute_collateral entity).
Proof. intros t Ht. simpl. by apply sum_collateral_lookup. Qed.

Lemma set_debt_is_sum x entity :
  collateral_is_sum entity → collateral_is_sum (set_debt x entity).
Proof. done. Qed.

Lemma set_debt_category_is_sum c entity :
  collateral_is_sum entity → collateral_is_sum (set_debt_category c entity).
Proof. done. Qed.

Lemma store_invariant self loan_id entity :
  state_invariant self → collateral_is_sum entity →
  state_invariant (store self loan_id entity).
Proof.
  intros Hinv He id e. simpl. rewrite lookup_insert.
  case_decide; [by intros [= <-]|apply Hinv].
Qed.

Hint Resolve recompute_collateral_is_sum set_debt_is_sum
  set_debt_category_is_sum store_invariant : invariant.

Lemma handler_keeps_invariant (k : key_name)
    (self self' : HashstackState) (event : event) :
  state_invariant self →
  EVENTS_METHODS_MAPPING k self event = Ok self' →
  state_invariant self'.
Proof.
  intros Hinv Hrun.
  destruct k; simpl in Hrun;
    [ unfold process_new_loan_event in Hrun
    | unfold process_collateral_added_event in Hrun
    | unfold process_collateral_withdrawal_event in Hrun
    | unfold process_loan_withdrawal_event in Hrun
    | unfold process_loan_repaid_event in Hrun
    | unfold process_loan_swap_event in Hrun
    | unfold process_loan_interest_deducted_event in Hrun
    | unfold process_liquidated_event in Hrun ];
    res_inv Hrun; subst self'; auto 6 with invariant.
Qed.

Lemma init_invariant (verbose_user : option string) :
  state_invariant (HashstackState_init verbose_user).
Proof. intros loan_id entity Hl. simpl in Hl. by rewrite lookup_empty in Hl. Qed.

Lemma replay_keeps_invariant (events : list event) :
  ∀ self self', state_invariant self → replay self events = Ok self' →
                state_invariant self'.
Proof.
  induction events as [|event events IH]; intros self self' Hinv Hrun.
  - by apply (inj Ok) in Hrun as <-.
  - simpl in Hrun. apply bind_Ok in Hrun as (self1 & Hstep & Hrun).
    eapply IH; [|done]. by eapply handler_keeps_invariant.
Qed.

(** C2.  Every handler keeps the standing invariant: if, for every loan
    entity of the store, [collateral] is the token-wise sum of
    [original_collateral] and [borrowed_collateral] over the keys of
    [TOKEN_DECIMAL_FACTORS], the same holds of the store the handler
    returns.  Hence it holds of every loan entity after every replay
    from the empty store.  The sum is the [+] of [decimal.Decimal]: the
    sum of the two amounts when that has at most 28 digits, and
    otherwise the nearest value of 28 digits. *)
Theorem handlers_keep_collateral_sum :
  (∀ k self self' event,
     state_invariant self →
     EVENTS_METHODS_MAPPING k self event = Ok self' →
     state_invariant self')
  ∧ (∀ verbose_user events self,
       replay (HashstackState_init verbose_user) events = Ok self →
       ∀ loan_id entity t,
         loan_entities self !! loan_id = Some entity →
         t ∈ dom TOKEN_DECIMAL_FACTORS →
         collateral entity !! t
         = Some (Decimal_add_amount (amount (original_collateral entity) t)
                   (amount (borrowed_collateral entity) t))
         ∧ (Z.abs (amount (original_collateral entity) t
                   + amount (borrowed_collateral entity) t) < 10 ^ 28 →
            collateral entity !! t
            = Some (amount (original_collateral entity) t
                    + amount (borrowed_collateral entity) t))
         ∧ (10 ^ 28 ≤ Z.abs (amount (original_collateral entity) t
                             + amount (borrowed_collateral entity) t) →
            ∃ x, collateral entity !! t = Some x
                 ∧ 2 * Z.abs (x - (amount (original_collateral entity) t
                                   + amount (borrowed_collateral entity) t))
                   ≤ 10 ^ (digits
                             (Z.abs (amount (original_collateral entity) t
                                     + amount (borrowed_collateral entity) t))
                           - 28))).
Proof.
  split; [apply handler_keeps_invariant|].
  intros verbose_user events self Hrun loan_id entity t Hentity Ht.
  pose proof (replay_keeps_invariant events _ self
                (init_invariant verbose_user) Hrun loan_id entity Hentity
                t Ht) as Hsum.
  split; [done|]. split.
  - intros Hsmall. by rewrite Hsum, Decimal_add_amount_exact.
  - intros Hlarge. eexists. split; [done|].
    by apply round_amount_nearest.
Qed.
End InvariantProofs.

Lemma handlers_keep_collateral_sum_witness :
  collateral loan7_entity !! "B"
  = Some (amount (original_collateral loan7_entity) "B"
          + amount (borrowed_collateral loan7_entity) "B").
Proof.
  apply (proj2 (@handlers_keep_collateral_sum scenario) None [loan7_created]
           loan7_state eq_refl 7 loan7_entity "B" eq_refl).
  - apply (bool_decide_unpack _). vm_compute. exact I.
  - apply (bool_decide_unpack _). vm_compute. exact I.
Defined.

(* ------------------------------------------------------------------ *)
(** * Liquidation and repayment *)

Lemma amount_singleton (token t : string) (x : Z) :
  amount (<[token := x]> TokenAmounts_new) t = if decide (token = t) then x else 0.
Proof.
  unfold amount, TokenAmounts_new. rewrite lookup_insert.
  case_decide; [done|]. by rewrite lookup_empty.
Qed.

Lemma amount_singleton_zero (token t : string) :
  amount (<[token := 0]> TokenAmounts_new) t = 0.
Proof. rewrite amount_singleton. by case_decide. Qed.

Lemma amount_empty (t : string) : amount TokenAmounts_new t = 0.
Proof. unfold amount, TokenAmounts_new. by rewrite lookup_empty. Qed.

Section Liquidation.
Context `{Collaborators}.

(** C6.  For a loan id in the store, an event user equal to the stored
    user and an event borrowed-collateral amount of zero,
    [process_liquidated_event] succeeds and leaves the loan with zero
    debt and zero borrowed collateral for every token, an empty original
    collateral, a collateral of zero for every token, and the debt
    category of the event; the other loans are untouched. *)
Theorem liquidated_clears_loan (self : HashstackState) (event : event)
    (loan_id : Z) (entity : HashstackLoanEntity)
    (debt_token borrowed_collateral_token : string) (category : Z)
    (Hid : getitem (data event) 0 ≫= int16 = Ok loan_id)
    (Hpresent : loan_entities self !! loan_id = Some entity)
    (Huser : getitem (data event) 1 = Ok (user entity))
    (Hdebt_token : getitem (data event) 2 ≫= get_symbol = Ok debt_token)
    (Hborrowed_token :
       getitem (data event) 6 ≫= get_symbol = Ok borrowed_collateral_token)
    (Hzero : getitem (data event) 7 ≫= int16 = Ok 0)
    (Hcategory : getitem (data event) 10 ≫= int16 = Ok category) :
  ∃ self' entity',
    process_liquidated_event self event = Ok self'
    ∧ loan_entities self' !! loan_id = Some entity'
    ∧ (∀ t, amount (debt entity') t = 0)
    ∧ (∀ t, amount (borrowed_collateral entity') t = 0)
    ∧ original_collateral entity' = ∅
    ∧ (∀ t, t ∈ dom TOKEN_DECIMAL_FACTORS → collateral entity' !! t = Some 0)
    ∧ (∀ t, amount (collateral entity') t = 0)
    ∧ debt_category entity' = category
    ∧ user entity' = user entity
    ∧ (∀ other, other ≠ loan_id →
         loan_entities self' !! other = loan_entities self !! other).
Proof.
  unfold process_liquidated_event.
  rewrite Hid, Huser. simpl. unfold load. rewrite Hpresent. simpl.
  rewrite bool_decide_eq_true_2 by done. simpl.
  rewrite Hdebt_token, Hborrowed_token. simpl. rewrite Hzero. simpl.
  rewrite Hcategory. simpl.
  eexists _, _. split; [done|]. simpl. rewrite lookup_insert_eq.
  split; [done|]. simpl.
  assert (∀ t, amount (sum_collateral
    (set_original_collateral TokenAmounts_new
       (set_borrowed_collateral (<[borrowed_collateral_token:=0]> TokenAmounts_new)
          entity))) t = 0) as Hsum.
  { intros t. unfold amount.
    destruct (decide (t ∈ dom TOKEN_DECIMAL_FACTORS)).
    - rewrite sum_collateral_lookup by done. simpl.
      by rewrite amount_empty, amount_singleton_zero.
    - by rewrite sum_collateral_lookup_None. }
  repeat split; auto using amount_singleton_zero.
  - intros t Ht. rewrite sum_collateral_lookup by done. simpl.
    by rewrite amount_empty, amount_singleton_zero.
  - intros other Hother. by rewrite lookup_insert_ne.
Qed.
End Liquidation.

Lemma liquidated_clears_loan_witness :
  collateral loan7_entity !! "B" = Some 70
  ∧ ∃ self' entity',
      @process_liquidated_event scenario loan7_state loan7_liquidated = Ok self'
      ∧ loan_entities self' !! 7 = Some entity'
      ∧ amount (debt entity') "A" = 0
      ∧ amount (borrowed_collateral entity') "B" = 0
      ∧ amount (original_collateral entity') "B" = 0
      ∧ collateral entity' !! "B" = Some 0.
Proof.
  split; [reflexivity|].
  destruct (@liquidated_clears_loan scenario loan7_state loan7_liquidated
              7 loan7_entity "A" "B" 3)
    as (self' & entity' & Hrun & Hl & Hd & Hb & Ho & Hc & _);
    [reflexivity..|].
  exists self', entity'. repeat split; [done..| |].
  - by rewrite Ho.
  - apply Hc. apply (bool_decide_unpack _). vm_compute. exact I.
Defined.

Section Repayment.
Context `{Collaborators}.

Lemma collateral_event_step (self self' : HashstackState) (event : event)
    (loan_id : Z) (entity : HashstackLoanEntity) :
  is_collateral_event event →
  process_event self event = Ok self' →
  loan_entities self !! loan_id = Some entity →
  ∃ entity',
    loan_entities self' !! loan_id = Some entity'
    ∧ user entity' = user entity
    ∧ original_collateral entity'
      = last_original_collateral loan_id (original_collateral entity) [event].
Proof.
  intros Hkind Hrun Hentity. unfold process_event in Hrun.
  unfold last_original_collateral, collateral_snapshot. simpl.
  destruct Hkind as [Hk|Hk]; rewrite Hk in Hrun; simpl in Hrun;
    [unfold process_collateral_added_event in Hrun
    |unfold process_collateral_withdrawal_event in Hrun];
    res_inv Hrun; subst self';
    match goal with
    | H1 : _ ≫= int16 = Ok ?id, H2 : _ ≫= get_symbol = Ok _,
      H3 : _ ≫= int16 = Ok _, H4 : load _ ?id = Ok _ |- _ =>
        rewrite H1, H2; simpl; rewrite H3; simpl;
        apply load_Ok in H4; destruct (decide (id = loan_id)) as [->|]
    end; simpl.
  1,3: rewrite lookup_insert_eq; eexists; split; [done|];
       split; [simpl; congruence|done].
  all: rewrite lookup_insert_ne by done; by exists entity.
Qed.

Lemma collateral_events_replay (events : list event) :
  ∀ (self self' : HashstackState) (loan_id : Z) (entity : HashstackLoanEntity),
    Forall is_collateral_event events →
    replay self events = Ok self' →
    loan_entities self !! loan_id = Some entity →
    ∃ entity',
      loan_entities self' !! loan_id = Some entity'
      ∧ user entity' = user entity
      ∧ original_collateral entity'
        = last_original_collateral loan_id (original_collateral entity) events.
Proof.
  induction events as [|event events IH];
    intros self self' loan_id entity Hkinds Hrun Hentity.
  - apply (inj Ok) in Hrun as <-. by exists entity.
  - apply Forall_cons in Hkinds as [Hkind Hkinds].
    simpl in Hrun. apply bind_Ok in Hrun as (self1 & Hstep & Hrun).
    destruct (collateral_event_step _ _ _ _ _ Hkind Hstep Hentity)
      as (entity1 & Hentity1 & Huser1 & Horig1).
    destruct (IH _ _ _ _ Hkinds Hrun Hentity1)
      as (entity' & Hentity' & Huser' & Horig').
    exists entity'. split; [done|]. split; [congruence|].
    rewrite Horig', Horig1. done.
Qed.

Lemma replay_app (self : HashstackState) (events1 events2 : list event) :
  replay self (events1 ++ events2)
  = replay self events1 ≫= λ self', replay self' events2.
Proof.
  revert self. induction events1 as [|event events1 IH]; intros self; [done|].
  simpl. destruct (process_event self event); simpl; [apply IH|done].
Qed.

(** C9.  After a [new_loan] event for a loan id, any [collateral_added]
    and [collateral_withdrawal] events, and a [loan_repaid] event for
    that id with the user of the creation event and a zero
    borrowed-collateral amount, the loan has zero debt and zero borrowed
    collateral for every token, and its original collateral is that of
    the last collateral event for the loan, or that of the creation
    event if there is none. *)
Theorem repaid_after_new_loan (self0 self1 self2 : HashstackState)
    (created repaid : event) (between : list event) (loan_id : Z)
    (debt_token borrowed_collateral_token : string) (category : Z)
    (Hcreated_kind : ev_key_name created = new_loan)
    (Hrepaid_kind : ev_key_name repaid = loan_repaid)
    (Hcreated : process_new_loan_event self0 created = Ok self1)
    (Hcreated_id : getitem (data created) 0 ≫= int16 = Ok loan_id)
    (Hkinds : Forall is_collateral_event between)
    (Hbetween : replay self1 between = Ok self2)
    (Hid : getitem (data repaid) 0 ≫= int16 = Ok loan_id)
    (Huser : getitem (data repaid) 1 = getitem (data created) 1)
    (Hdebt_token : getitem (data repaid) 2 ≫= get_symbol = Ok debt_token)
    (Hborrowed_token :
       getitem (data repaid) 6 ≫= get_symbol = Ok borrowed_collateral_token)
    (Hzero : getitem (data repaid) 7 ≫= int16 = Ok 0)
    (Hcategory : getitem (data repaid) 10 ≫= int16 = Ok category) :
  ∃ self3 created_entity entity,
    loan_entities self1 !! loan_id = Some created_entity
    ∧ process_loan_repaid_event self2 repaid = Ok self3
    ∧ replay self0 (created :: between ++ [repaid]) = Ok self3
    ∧ loan_entities self3 !! loan_id = Some entity
    ∧ (∀ t, amount (debt entity) t = 0)
    ∧ (∀ t, amount (borrowed_collateral entity) t = 0)
    ∧ original_collateral entity
      = last_original_collateral loan_id
          (original_collateral created_entity) between.
Proof.
  assert (∃ created_entity,
            loan_entities self1 !! loan_id = Some created_entity
            ∧ getitem (data created) 1 = Ok (user created_entity))
    as (created_entity & Hentity1 & Huser1).
  { pose proof Hcreated as Hrun. unfold process_new_loan_event in Hrun.
    res_inv Hrun. subst self1. simpl.
    match goal with
    | Hx : getitem (data created) 0 ≫= int16 = Ok _ |- _ =>
        rewrite Hcreated_id in Hx; apply (inj Ok) in Hx as <-
    end.
    rewrite lookup_insert_eq. eexists. split; [done|]. simpl. done. }
  destruct (collateral_events_replay _ _ _ _ _ Hkinds Hbetween Hentity1)
    as (entity2 & Hentity2 & Huser2 & Horig2).
  assert (∃ self3, process_loan_repaid_event self2 repaid = Ok self3
            ∧ self3 = store self2 loan_id
                (set_debt_category category
                   (set_debt (<[debt_token := 0]> TokenAmounts_new)
                      (recompute_collateral
                         (set_borrowed_collateral
                            (<[borrowed_collateral_token := 0]> TokenAmounts_new)
                            entity2)))))
    as (self3 & Hrepaid & ->).
  { unfold process_loan_repaid_event.
    rewrite Hid, Huser, Huser1. simpl. unfold load. rewrite Hentity2. simpl.
    rewrite bool_decide_eq_true_2 by done. simpl.
    rewrite Hdebt_token, Hborrowed_token. simpl. rewrite Hzero. simpl.
    rewrite Hcategory. simpl. by eexists. }
  eexists _, created_entity, _. split; [done|]. split; [done|].
  split.
  { simpl. unfold process_event at 1. rewrite Hcreated_kind. simpl.
    rewrite Hcreated. simpl. rewrite replay_app, Hbetween. simpl.
    unfold process_event. rewrite Hrepaid_kind. simpl. by rewrite Hrepaid. }
  simpl. rewrite lookup_insert_eq. split; [done|]. simpl.
  auto using amount_singleton_zero.
Qed.
End Repayment.

Lemma repaid_after_new_loan_witness :
  ∃ self3 entity,
    @replay scenario (HashstackState_init None)
      [loan7_created; loan7_collateral_added; loan7_repaid] = Ok self3
    ∧ loan_entities self3 !! 7 = Some entity
    ∧ amount (debt entity) "A" = 0
    ∧ amount (borrowed_collateral entity) "B" = 0
    ∧ original_collateral entity = {["B" := 80]}.
Proof.
  destruct (@repaid_after_new_loan scenario (HashstackState_init None)
              loan7_state
              (store loan7_state 7
                 (@recompute_collateral scenario
                    (set_original_collateral {["B" := 80]} loan7_entity)))
              loan7_created loan7_repaid [loan7_collateral_added] 7 "A" "B" 3)
    as (self3 & created_entity & entity & Hc & _ & Hrun & Hl & Hd & Hb & Ho);
    [reflexivity..| |reflexivity|reflexivity|reflexivity|reflexivity
    |reflexivity|reflexivity|reflexivity|].
  { repeat constructor. }
  exists self3, entity. repeat split; [done..|].
  rewrite Ho. apply (inj Some) in Hc as <-. reflexivity.
Defined.

(* ------------------------------------------------------------------ *)
(** * Preconditions of the handlers *)

Lemma store_store (self : HashstackState) loan_id old entity :
  store (store self loan_id old) loan_id entity = store self loan_id entity.
Proof.
  unfold store. simpl. rewrite insert_insert_eq. f_equal.
  destruct (decide (loan_id ∈ loan_ids self)) as [Hin|Hin].
  - by rewrite decide_True.
  - rewrite decide_True; [done|]. apply elem_of_app. right. by left.
Qed.

Lemma amounts_differ (x y : TokenAmounts) (token : string) :
  amount x token ≠ amount y token → x ≠ y.
Proof. by intros Hne ->. Qed.

Section Preconditions.
Context `{Collaborators}.

Lemma new_loan_any_store (self other : HashstackState) (event : event)
    (self' : HashstackState) :
  process_new_loan_event self event = Ok self' →
  ∃ loan_id entity,
    getitem (data event) 0 ≫= int16 = Ok loan_id
    ∧ self' = store self loan_id entity
    ∧ process_new_loan_event other event = Ok (store other loan_id entity).
Proof.
  intros Hrun. unfold process_new_loan_event in *. res_inv Hrun. subst self'.
  repeat match goal with
         | Hx : _ = Ok _ |- _ => rewrite Hx; clear Hx; simpl
         end.
  by eexists _, _.
Qed.

(** [loan_swap] asserts the debt of the event to be the stored debt. *)
Lemma swap_asserts_debt (self : HashstackState) (event : event)
    (loan_id : Z) (old : HashstackLoanEntity)
    (debt_token : string) (debt_amount : Z)
    (borrowed_token : string) (borrowed_amount category : Z) :
  getitem (data event) 0 ≫= int16 = Ok loan_id →
  getitem (data event) 1 = Ok (user old) →
  loan_entities self !! loan_id = Some old →
  getitem (data event) 14 ≫= int16 = Ok loan_id →
  getitem (data event) 15 = Ok (user old) →
  getitem (data event) 16 ≫= get_symbol = Ok debt_token →
  getitem (data event) 18 ≫= int16 = Ok debt_amount →
  getitem (data event) 20 ≫= get_symbol = Ok borrowed_token →
  getitem (data event) 21 ≫= int16 = Ok borrowed_amount →
  getitem (data event) 24 ≫= int16 = Ok category →
  debt old ≠ <[debt_token := debt_amount]> TokenAmounts_new →
  process_loan_swap_event self event = Raise AssertionError.
Proof.
  intros Hid Huser Hold Hnew_id Hnew_user Hdebt_token Hdebt_amount
    Hborrowed_token Hborrowed_amount Hcategory Hdebt.
  unfold process_loan_swap_event.
  rewrite Hid, Huser. simpl. unfold load. rewrite Hold. simpl.
  rewrite (bool_decide_eq_true_2 (user old = user old)) by done. simpl.
  rewrite Hnew_id, Hnew_user. simpl.
  rewrite (bool_decide_eq_true_2 (loan_id = loan_id)) by done. simpl.
  rewrite (bool_decide_eq_true_2 (user old = user old)) by done. simpl.
  rewrite Hdebt_token. simpl. rewrite Hdebt_amount. simpl.
  rewrite Hborrowed_token. simpl. rewrite Hborrowed_amount. simpl.
  rewrite Hcategory. simpl. rewrite Hold. simpl.
  by rewrite bool_decide_eq_false_2.
Qed.

(** The handlers of the events of an existing loan read the loan from
    the store before they write anything. *)
Lemma absent_loan_raises (k : key_name) (self : HashstackState)
    (event : event) (loan_id : Z) :
  k ≠ new_loan →
  getitem (data event) (loan_id_field k) ≫= int16 = Ok loan_id →
  loan_entities self !! loan_id = None →
  ∃ e, EVENTS_METHODS_MAPPING k self event = Raise e.
Proof.
  intros Hk Hid Habsent.
  assert (load self loan_id = Raise KeyError) as Hload.
  { unfold load. by rewrite Habsent. }
  destruct k; [done|..]; simpl in Hid |- *;
    [unfold process_collateral_added_event
    |unfold process_collateral_withdrawal_event
    |unfold process_loan_withdrawal_event
    |unfold process_loan_repaid_event
    |unfold process_loan_swap_event
    |unfold process_loan_interest_deducted_event
    |unfold process_liquidated_event];
    rewrite Hid; simpl;
    repeat match goal with
           | |- ∃ e, (?m ≫= _) = Raise e =>
               first
                 [ rewrite Hload; simpl; by eexists
                 | let e := fresh "e" in
                   destruct m as [?|e]; simpl; [|by exists e] ]
           end.
Qed.

(** C7 (as amended).  [process_new_loan_event] has no precondition on
    the store: if it succeeds on a store it succeeds on that store with
    the loan id already present, with the same result, the stored entity
    being replaced.  Every violation of a precondition of the other
    handlers fails.  A loan id that is not in the store makes each of
    them raise.  The preconditions they assert fail with
    [AssertionError]: an event user other than the stored user in
    loan_withdrawal, loan_repaid, loan_swap and liquidated; a non-zero
    borrowed-collateral amount in loan_repaid and liquidated; in
    loan_swap a new loan id or a new user other than the old one, and a
    new debt that differs from the stored debt in the amount of some
    token. *)
Theorem new_loan_overwrites_and_asserts_raise :
  (∀ self event self' loan_id old,
     getitem (data event) 0 ≫= int16 = Ok loan_id →
     process_new_loan_event self event = Ok self' →
     process_new_loan_event (store self loan_id old) event = Ok self')
  ∧ (∀ k self event loan_id,
       k ≠ new_loan →
       getitem (data event) (loan_id_field k) ≫= int16 = Ok loan_id →
       loan_entities self !! loan_id = None →
       ∃ e, EVENTS_METHODS_MAPPING k self event = Raise e)
  ∧ (∀ k self event loan_id entity user',
       asserts_user k →
       getitem (data event) 0 ≫= int16 = Ok loan_id →
       getitem (data event) 1 = Ok user' →
       loan_entities self !! loan_id = Some entity →
       user entity ≠ user' →
       EVENTS_METHODS_MAPPING k self event = Raise AssertionError)
  ∧ (∀ k self event loan_id entity debt_token borrowed_token face_amount,
       asserts_zero k →
       getitem (data event) 0 ≫= int16 = Ok loan_id →
       getitem (data event) 1 = Ok (user entity) →
       loan_entities self !! loan_id = Some entity →
       getitem (data event) 2 ≫= get_symbol = Ok debt_token →
       getitem (data event) 6 ≫= get_symbol = Ok borrowed_token →
       getitem (data event) 7 ≫= int16 = Ok face_amount →
       face_amount ≠ 0 →
       EVENTS_METHODS_MAPPING k self event = Raise AssertionError)
  ∧ (∀ self event old_loan_id entity new_loan_id new_user,
       getitem (data event) 0 ≫= int16 = Ok old_loan_id →
       getitem (data event) 1 = Ok (user entity) →
       loan_entities self !! old_loan_id = Some entity →
       getitem (data event) 14 ≫= int16 = Ok new_loan_id →
       getitem (data event) 15 = Ok new_user →
       new_loan_id ≠ old_loan_id ∨ new_user ≠ user entity →
       process_loan_swap_event self event = Raise AssertionError)
  ∧ (∀ self event loan_id entity new_debt_token new_debt_face_amount
       new_borrowed_collateral_token new_borrowed_collateral_face_amount
       new_debt_category token,
       getitem (data event) 0 ≫= int16 = Ok loan_id →
       getitem (data event) 1 = Ok (user entity) →
       loan_entities self !! loan_id = Some entity →
       getitem (data event) 14 ≫= int16 = Ok loan_id →
       getitem (data event) 15 = Ok (user entity) →
       getitem (data event) 16 ≫= get_symbol = Ok new_debt_token →
       getitem (data event) 18 ≫= int16 = Ok new_debt_face_amount →
       getitem (data event) 20 ≫= get_symbol
       = Ok new_borrowed_collateral_token →
       getitem (data event) 21 ≫= int16
       = Ok new_borrowed_collateral_face_amount →
       getitem (data event) 24 ≫= int16 = Ok new_debt_category →
       amount (debt entity) token
       ≠ amount (<[new_debt_token := new_debt_face_amount]> TokenAmounts_new)
           token →
       process_loan_swap_event self event = Raise AssertionError).
Proof.
  split; [|split; [|split; [|split; [|split]]]].
  - intros self event self' loan_id old Hid Hrun.
    destruct (new_loan_any_store _ (store self loan_id old) _ _ Hrun)
      as (loan_id' & entity & Hid' & Hself' & Hrun').
    rewrite Hid in Hid'. apply (inj Ok) in Hid' as <-.
    by rewrite Hrun', Hself', store_store.
  - apply absent_loan_raises.
  - intros k self event loan_id entity user' Hk Hid Huser Hentity Hne.
    destruct Hk as [->|[->|[->| ->]]]; simpl;
      [unfold process_loan_withdrawal_event
      |unfold process_loan_repaid_event
      |unfold process_loan_swap_event
      |unfold process_liquidated_event];
      rewrite Hid, Huser; simpl; unfold load; rewrite Hentity; simpl;
      by rewrite bool_decide_eq_false_2.
  - intros k self event loan_id entity debt_token borrowed_token face_amount
      Hk Hid Huser Hentity Hdebt Hborrowed Hamount Hne.
    destruct Hk as [->| ->]; simpl;
      [unfold process_loan_repaid_event|unfold process_liquidated_event];
      rewrite Hid, Huser; simpl; unfold load; rewrite Hentity; simpl;
      rewrite bool_decide_eq_true_2 by done; simpl;
      rewrite Hdebt, Hborrowed; simpl; rewrite Hamount; simpl;
      by rewrite bool_decide_eq_false_2.
  - intros self event old_loan_id entity new_loan_id new_user
      Hid Huser Hentity Hnew_id Hnew_user Hne.
    unfold process_loan_swap_event.
    rewrite Hid, Huser; simpl; unfold load; rewrite Hentity; simpl.
    rewrite bool_decide_eq_true_2 by done; simpl.
    rewrite Hnew_id, Hnew_user; simpl.
    destruct (decide (new_loan_id = old_loan_id)) as [->|Hids].
    + rewrite (bool_decide_eq_true_2 (old_loan_id = old_loan_id)) by done.
      simpl. destruct Hne as [?|?]; [done|].
      by rewrite (bool_decide_eq_false_2 (new_user = user entity)).
    + by rewrite (bool_decide_eq_false_2 (new_loan_id = old_loan_id)).
  - intros self event loan_id entity new_debt_token new_debt_face_amount
      new_borrowed_collateral_token new_borrowed_collateral_face_amount
      new_debt_category token ?????????? Hne.
    eapply swap_asserts_debt; try done. by eapply amounts_differ.
Qed.
End Preconditions.

Lemma new_loan_overwrites_and_asserts_raise_witness :
  @process_new_loan_event scenario loan7_state loan7_created_again
  = Ok (store (HashstackState_init None) 7 loan7_entity_again)
  ∧ (∃ e, @process_collateral_added_event scenario loan7_state
            loan12_collateral_added = Raise e)
  ∧ @process_loan_withdrawal_event scenario loan7_state loan7_withdrawn_by_other
    = Raise AssertionError
  ∧ @process_loan_swap_event scenario loan7_state loan7_swapped_partly
    = Raise AssertionError.
Proof.
  destruct (@new_loan_overwrites_and_asserts_raise scenario)
    as (Hnew & Habsent & Huser & _ & _ & Hdebt).
  split; [|split; [|split]].
  - apply (Hnew (HashstackState_init None) loan7_created_again _ 7 loan7_entity);
      reflexivity.
  - apply (Habsent collateral_added loan7_state loan12_collateral_added 12);
      [discriminate|reflexivity..].
  - apply (Huser loan_withdrawal loan7_state loan7_withdrawn_by_other 7
             loan7_entity "0x52"); [by left|reflexivity..|discriminate].
  - apply (Hdebt loan7_state loan7_swapped_partly 7 loan7_entity "A" 90 "A" 25
             2 "A"); [reflexivity..|]. vm_compute. discriminate.
Defined.

(** C7 (as stated) fails: a creation event for loan 7, already in the
    store, succeeds and replaces the stored entity. *)
Lemma new_loan_replaces_present_loan :
  loan_entities loan7_state !! 7 = Some loan7_entity
  ∧ @process_new_loan_event scenario loan7_state loan7_created_again
    = Ok (store (HashstackState_init None) 7 loan7_entity_again)
  ∧ loan_entities (store (HashstackState_init None) 7 loan7_entity_again) !! 7
    = Some loan7_entity_again
  ∧ loan7_entity_again ≠ loan7_entity.
Proof. repeat split. discriminate. Qed.

(* ------------------------------------------------------------------ *)
(** * Decoding failures *)

Lemma getitem_Ok (d : list string) (i : nat) (x : string) :
  getitem d i = Ok x → is_Some (d !! i).
Proof. unfold getitem. destruct (d !! i); [eauto|done]. Qed.

Lemma getitem_bind_Ok {A} (d : list string) (i : nat) (f : string → res A)
    (a : A) :
  getitem d i ≫= f = Ok a → is_Some (d !! i).
Proof. intros (x & Hx & _)%bind_Ok. by eapply getitem_Ok. Qed.

Lemma getitem_None (d : list string) (i : nat) :
  d !! i = None → getitem d i = Raise IndexError.
Proof. unfold getitem. by intros ->. Qed.

Section Decoding.
Context `{Collaborators}.

Lemma new_loan_decoded (self : HashstackState) (event : event)
    (loan_id : Z) (user : string) (debt_token : string) (debt_face_amount : Z)
    (borrowed_token : string) (borrowed_face_amount : Z) (category : Z) :
  getitem (data event) 0 ≫= int16 = Ok loan_id →
  getitem (data event) 1 = Ok user →
  getitem (data event) 2 ≫= get_symbol = Ok debt_token →
  getitem (data event) 4 ≫= int16 = Ok debt_face_amount →
  getitem (data event) 6 ≫= get_symbol = Ok borrowed_token →
  getitem (data event) 7 ≫= int16 = Ok borrowed_face_amount →
  getitem (data event) 10 ≫= int16 = Ok category →
  process_new_loan_event self event
  = (λ original_collateral,
       store self loan_id
         (created_entity user category debt_token debt_face_amount
            borrowed_token borrowed_face_amount original_collateral))
    <$> try_except (first_layout event) KeyError (second_layout event).
Proof.
  intros Hid Huser Hdebt Hdebt_amount Hborrowed Hborrowed_amount Hcategory.
  unfold process_new_loan_event.
  rewrite Hid, Huser. simpl. rewrite Hdebt. simpl. rewrite Hdebt_amount. simpl.
  rewrite Hborrowed. simpl. rewrite Hborrowed_amount. simpl.
  rewrite Hcategory. simpl. fold (first_layout event) (second_layout event).
  by destruct (try_except _ _ _) as [[token face_amount]|e].
Qed.

Lemma handler_needs_layout (k : key_name) (self self' : HashstackState)
    (event : event) :
  EVENTS_METHODS_MAPPING k self event = Ok self' →
  Forall (λ i, is_Some (data event !! i)) (layout k)
  ∧ Forall (λ i, ∃ symbol, getitem (data event) i ≫= get_symbol = Ok symbol)
      (token_fields k).
Proof.
  intros Hrun.
  destruct k; simpl in Hrun;
    [ unfold process_new_loan_event in Hrun
    | unfold process_collateral_added_event in Hrun
    | unfold process_collateral_withdrawal_event in Hrun
    | unfold process_loan_withdrawal_event in Hrun
    | unfold process_loan_repaid_event in Hrun
    | unfold process_loan_swap_event in Hrun
    | unfold process_loan_interest_deducted_event in Hrun
    | unfold process_liquidated_event in Hrun ];
    res_inv Hrun;
    (split; simpl; repeat apply Forall_cons_2; try apply Forall_nil_2;
     eauto using getitem_Ok, getitem_bind_Ok).
Qed.

(** C8 (as amended).  For the loan-creation event only, when decoding
    the original-collateral fields at the first layout raises
    [KeyError], decoding uses the second layout, one index earlier, and
    fails only if that fails too; any other error of the first layout,
    in particular the [IndexError] of a field absent at index 14 or 17,
    is raised without the second layout being tried.  In every handler
    a field absent at an index of its fixed layout, or a token field
    that [get_symbol] rejects there, makes the handler fail. *)
Theorem new_loan_second_layout_on_KeyError :
  (∀ self event loan_id user debt_token debt_face_amount borrowed_token
     borrowed_face_amount category,
     getitem (data event) 0 ≫= int16 = Ok loan_id →
     getitem (data event) 1 = Ok user →
     getitem (data event) 2 ≫= get_symbol = Ok debt_token →
     getitem (data event) 4 ≫= int16 = Ok debt_face_amount →
     getitem (data event) 6 ≫= get_symbol = Ok borrowed_token →
     getitem (data event) 7 ≫= int16 = Ok borrowed_face_amount →
     getitem (data event) 10 ≫= int16 = Ok category →
     let write original_collateral :=
       store self loan_id
         (created_entity user category debt_token debt_face_amount
            borrowed_token borrowed_face_amount original_collateral) in
     (∀ x, first_layout event = Ok x →
           process_new_loan_event self event = Ok (write x))
     ∧ (first_layout event = Raise KeyError →
        process_new_loan_event self event = write <$> second_layout event)
     ∧ (∀ e, first_layout event = Raise e → e ≠ KeyError →
             process_new_loan_event self event = Raise e)
     ∧ (data event !! 14%nat = None
        ∨ (∃ symbol, getitem (data event) 14 ≫= get_symbol = Ok symbol)
          ∧ data event !! 17%nat = None →
        process_new_loan_event self event = Raise IndexError))
  ∧ (∀ k self event,
       Exists (λ i, data event !! i = None) (layout k)
       ∨ Exists (λ i, ∃ e, getitem (data event) i ≫= get_symbol = Raise e)
           (token_fields k) →
       ∃ e, EVENTS_METHODS_MAPPING k self event = Raise e).
Proof.
  split.
  - intros self event loan_id user debt_token debt_face_amount borrowed_token
      borrowed_face_amount category Hid Huser Hdebt Hdebt_amount Hborrowed
      Hborrowed_amount Hcategory write.
    rewrite (new_loan_decoded self event _ _ _ _ _ _ _ Hid Huser Hdebt
               Hdebt_amount Hborrowed Hborrowed_amount Hcategory).
    fold write.
    assert (∀ e, first_layout event = Raise e → e ≠ KeyError →
              write <$> try_except (first_layout event) KeyError
                          (second_layout event) = Raise e) as Hother.
    { intros e -> He. simpl. by rewrite decide_False. }
    split; [by intros x ->|]. split; [by intros ->|]. split; [done|].
    intros Habsent. apply Hother; [|done]. unfold first_layout.
    destruct Habsent as [H14|[[symbol Hsymbol] H17]].
    + by rewrite (getitem_None _ _ H14).
    + by rewrite Hsymbol; simpl; rewrite (getitem_None _ _ H17).
  - intros k self event Hbad.
    destruct (EVENTS_METHODS_MAPPING k self event) as [self'|e] eqn:Hrun;
      [|by exists e].
    apply handler_needs_layout in Hrun as [Hlayout Htokens].
    destruct Hbad as [Hbad|Hbad]; apply Exists_exists in Hbad as (i & Hi & Hbad).
    + rewrite Forall_forall in Hlayout. apply Hlayout in Hi as [x Hx]. congruence.
    + rewrite Forall_forall in Htokens. apply Htokens in Hi as [symbol Hs].
      destruct Hbad as [e He]. congruence.
Qed.
End Decoding.

Lemma new_loan_second_layout_on_KeyError_witness :
  (∃ e, @process_loan_repaid_event scenario loan7_state
          {| block_number := 130; transaction_hash := "0x1a";
             ev_key_name := loan_repaid; data := ["0x7"; "0x51"; "0xa"] |}
        = Raise e)
  ∧ @process_new_loan_event scenario (HashstackState_init None) loan8_truncated
    = Raise IndexError.
Proof.
  destruct (@new_loan_second_layout_on_KeyError scenario) as [Hnew Hfixed].
  split.
  - apply (Hfixed loan_repaid). left. apply Exists_exists.
    exists 6%nat. split; [by repeat constructor|reflexivity].
  - eapply (Hnew (HashstackState_init None) loan8_truncated); [reflexivity..|].
    right. split; [by exists "B"|reflexivity].
Defined.

(** C8 (as stated) fails: in [loan8_truncated] the field at index 17 of
    the first layout is absent and the second layout decodes, yet the
    handler raises [IndexError]. *)
Lemma new_loan_absent_field_not_recovered :
  data loan8_truncated !! 17%nat = None
  ∧ @second_layout scenario loan8_truncated = Ok ("B", 50)
  ∧ @process_new_loan_event scenario (HashstackState_init None) loan8_truncated
    = Raise IndexError.
Proof. repeat split. Qed.

(* ------------------------------------------------------------------ *)
(** * Health factors *)

Lemma threshold_of_category (category : Z) :
  (if decide (category = 1) then Decimal_1_06
   else if decide (category = 2) then Decimal_1_05 else Decimal_1_04)
  = liquidation_threshold category.
Proof.
  repeat case_decide; subst; [done..|].
  destruct category as [|p|p]; [done| |done].
  destruct p as [[p|p|]|[p|p|]|]; done.
Qed.

Lemma liquidation_threshold_nonzero (category : Z) :
  liquidation_threshold category ≠ 0%Qc.
Proof.
  rewrite <-threshold_of_category.
  repeat case_decide; intros Heq; apply (f_equal this) in Heq;
    vm_compute in Heq; discriminate.
Qed.

Lemma below_threshold_hf_geb (health : health_factor) (category : Z) :
  hf_geb health (liquidation_threshold category) = false
  ↔ below_threshold health category.
Proof.
  destruct health as [h|]; simpl; [|done].
  rewrite bool_decide_eq_false. split.
  - apply Qcnot_le_lt.
  - apply Qclt_not_le.
Qed.

Section HealthFactor.
Context `{Collaborators}.

(** C4.  When the collateral and debt values are available,
    [compute_health_factor] returns the infinity sentinel if the debt
    value is zero, whatever the collateral value, and otherwise what
    the division of the collateral value by the debt value gives: the
    quotient as the decimal context rounds it.  An exception it raises
    is one raised by the computation of a value, or the [Overflow] of a
    quotient beyond the range of the context: its division never
    raises [DivisionByZero]. *)
Theorem compute_health_factor_sentinel (self : HashstackLoanEntity)
    (prices : option Prices) (collateral_usd debt_usd : option Qc) :
  (∀ c d,
     if_None collateral_usd (compute_collateral_usd self prices) = Ok c →
     if_None debt_usd (compute_debt_usd self prices) = Ok d →
     (d = 0%Qc →
      compute_health_factor self prices collateral_usd debt_usd = Ok Inf)
     ∧ (d ≠ 0%Qc →
        compute_health_factor self prices collateral_usd debt_usd
        = Finite <$> Decimal_div c d
        ∧ Decimal_div c d = round_context (c / d)%Qc
        ∧ compute_health_factor self prices collateral_usd debt_usd
          ≠ Raise DivisionByZero))
  ∧ (∀ e,
       compute_health_factor self prices collateral_usd debt_usd = Raise e →
       if_None collateral_usd (compute_collateral_usd self prices) = Raise e
       ∨ if_None debt_usd (compute_debt_usd self prices) = Raise e
       ∨ (e = Overflow
          ∧ ∃ c d,
              if_None collateral_usd (compute_collateral_usd self prices)
              = Ok c
              ∧ if_None debt_usd (compute_debt_usd self prices) = Ok d
              ∧ d ≠ 0%Qc
              ∧ round_context (c / d)%Qc = Raise Overflow))
  ∧ (compute_health_factor self prices collateral_usd debt_usd
     = Raise DivisionByZero →
     if_None collateral_usd (compute_collateral_usd self prices)
     = Raise DivisionByZero
     ∨ if_None debt_usd (compute_debt_usd self prices)
       = Raise DivisionByZero).
Proof.
  assert (∀ e,
    compute_health_factor self prices collateral_usd debt_usd = Raise e →
    if_None collateral_usd (compute_collateral_usd self prices) = Raise e
    ∨ if_None debt_usd (compute_debt_usd self prices) = Raise e
    ∨ (e = Overflow
       ∧ ∃ c d,
           if_None collateral_usd (compute_collateral_usd self prices) = Ok c
           ∧ if_None debt_usd (compute_debt_usd self prices) = Ok d
           ∧ d ≠ 0%Qc
           ∧ round_context (c / d)%Qc = Raise Overflow)) as Hraise.
  { intros e. unfold compute_health_factor.
    destruct (if_None collateral_usd _) as [c|e1]; simpl;
      [|intros [= ->]; by left].
    destruct (if_None debt_usd _) as [d|e2]; simpl;
      [|intros [= ->]; right; by left].
    destruct (decide (d = 0%Qc)) as [|Hd]; [done|].
    rewrite Decimal_div_nonzero by done.
    destruct (round_context (c / d)%Qc) as [q|e'] eqn:Hq; simpl; [done|].
    intros [= ->]. right. right.
    pose proof (round_in_Raise _ _ _ _ _ Hq) as ->.
    split; [done|]. by exists c, d. }
  split; [|split; [done|]].
  - intros c d Hc Hd. unfold compute_health_factor. rewrite Hc, Hd. simpl.
    split; intros Hd0.
    + by rewrite decide_True.
    + rewrite decide_False by done.
      split; [done|]. split; [by apply Decimal_div_nonzero|].
      rewrite Decimal_div_nonzero by done.
      destruct (round_context (c / d)%Qc) as [q|e'] eqn:Hq; simpl; [done|].
      by rewrite (round_in_Raise _ _ _ _ _ Hq).
  - intros Hdiv. destruct (Hraise _ Hdiv) as [?|[?|[? _]]]; auto. done.
Qed.

Lemma standardized_health_factor_value (self : HashstackLoanEntity)
    (prices : option Prices) (collateral_usd debt_usd : option Qc) (c d : Qc) :
  if_None collateral_usd (compute_collateral_usd self prices) = Ok c →
  if_None debt_usd (compute_debt_usd self prices) = Ok d →
  compute_standardized_health_factor self prices collateral_usd debt_usd
  = collateral_usd_threshold ←
      Decimal_mul (liquidation_threshold (debt_category self)) d;
    if decide (collateral_usd_threshold = 0%Qc) then Ok Inf
    else Finite <$> round_context (c / collateral_usd_threshold)%Qc.
Proof.
  intros Hc Hd. unfold compute_standardized_health_factor.
  rewrite Hc, Hd. simpl. rewrite threshold_of_category.
  destruct (Decimal_mul _ d) as [p|e]; simpl; [|done].
  destruct (decide (p = 0%Qc)); [done|].
  by rewrite Decimal_div_nonzero.
Qed.

Lemma holds_debt_token (loan_entity : HashstackLoanEntity) (debt_token : string) :
  debt_token ∈ dom (filter (λ item : string * Z, 0 < item.2) (debt loan_entity))
  ↔ 0 < amount (debt loan_entity) debt_token.
Proof.
  rewrite elem_of_dom. unfold is_Some, amount.
  setoid_rewrite map_lookup_filter_Some. simpl.
  destruct (debt loan_entity !! debt_token) as [x|]; simpl.
  - split; [by intros (? & [= <-] & ?)|by exists x].
  - split; [by intros (? & [=] & ?)|lia].
Qed.

Lemma liquidable_debt_step_value (changed_prices : Prices)
    (debt_token : string) (acc : Qc) (loan_entity : HashstackLoanEntity)
    (d : Qc) (health : health_factor) :
  0 < amount (debt loan_entity) debt_token →
  compute_debt_usd loan_entity (Some changed_prices) = Ok d →
  compute_health_factor loan_entity (Some changed_prices) None (Some d)
  = Ok health →
  liquidable_debt_step changed_prices debt_token acc loan_entity
  = if hf_geb health (liquidation_threshold (debt_category loan_entity))
    then Ok acc else Decimal_add acc d.
Proof.
  intros Hholds Hd Hhealth. unfold liquidable_debt_step.
  rewrite bool_decide_eq_true_2 by by apply holds_debt_token.
  simpl. rewrite Hd. simpl. rewrite Hhealth. simpl.
  by rewrite threshold_of_category.
Qed.

Lemma liquidable_debt_step_skip (changed_prices : Prices)
    (debt_token : string) (acc : Qc) (loan_entity : HashstackLoanEntity) :
  ¬ 0 < amount (debt loan_entity) debt_token →
  liquidable_debt_step changed_prices debt_token acc loan_entity = Ok acc.
Proof.
  intros Hholds. unfold liquidable_debt_step.
  rewrite bool_decide_eq_false_2; [done|]. by rewrite holds_debt_token.
Qed.

(** C5.  The liquidation threshold is 1.06 for debt category 1, 1.05
    for category 2 and 1.04 for any other value.
    [compute_standardized_health_factor] uses this mapping: it returns
    the collateral value divided by the product of the threshold and
    the debt value, product and quotient being those of the decimal
    context, and the infinity sentinel when the debt value is zero.
    The liquidable-debt scan compares the health factor of a loan with
    the same threshold. *)
Theorem thresholds_by_category :
  liquidation_threshold 1 = Q2Qc (106 # 100)
  ∧ liquidation_threshold 2 = Q2Qc (105 # 100)
  ∧ (∀ category, category ≠ 1 → category ≠ 2 →
       liquidation_threshold category = Q2Qc (104 # 100))
  ∧ (∀ self prices collateral_usd debt_usd c d,
       if_None collateral_usd (compute_collateral_usd self prices) = Ok c →
       if_None debt_usd (compute_debt_usd self prices) = Ok d →
       compute_standardized_health_factor self prices collateral_usd debt_usd
       = (collateral_usd_threshold ←
            Decimal_mul (liquidation_threshold (debt_category self)) d;
          if decide (collateral_usd_threshold = 0%Qc) then Ok Inf
          else Finite <$> round_context (c / collateral_usd_threshold)%Qc)
       ∧ (d = 0%Qc →
          compute_standardized_health_factor self prices collateral_usd
            debt_usd = Ok Inf))
  ∧ (∀ changed_prices debt_token acc loan_entity d health,
       0 < amount (debt loan_entity) debt_token →
       compute_debt_usd loan_entity (Some changed_prices) = Ok d →
       compute_health_factor loan_entity (Some changed_prices) None (Some d)
       = Ok health →
       liquidable_debt_step changed_prices debt_token acc loan_entity
       = if hf_geb health (liquidation_threshold (debt_category loan_entity))
         then Ok acc else Decimal_add acc d).
Proof.
  split; [done|]. split; [done|]. split.
  { intros category H1 H2. rewrite <-threshold_of_category.
    by rewrite !decide_False. }
  split; [|apply liquidable_debt_step_value].
  intros self prices collateral_usd debt_usd c d Hc Hd.
  rewrite (standardized_health_factor_value _ _ _ _ c d Hc Hd).
  split; [done|]. intros ->. by rewrite Decimal_mul_0_r.
Qed.
End HealthFactor.

Lemma compute_health_factor_sentinel_witness :
  @compute_health_factor scenario (HashstackLoanEntity_init "0x54" 3)
    (Some scenario_prices) None None = Ok Inf
  ∧ @compute_health_factor scenario loan11_entity
      (Some scenario_prices) None None = Ok Inf
  ∧ @compute_health_factor scenario loan7_entity None
      (Some (Qc_of_Z 1)) (Some (Qc_of_Z 3))
    = Finite <$> Decimal_div (Qc_of_Z 1) (Qc_of_Z 3).
Proof.
  split; [|split].
  - apply (proj1 (@compute_health_factor_sentinel scenario
                    (HashstackLoanEntity_init "0x54" 3)
                    (Some scenario_prices) None None) 0%Qc 0%Qc);
      reflexivity.
  - apply (proj1 (@compute_health_factor_sentinel scenario loan11_entity
                    (Some scenario_prices) None None)
             (scenario_usd scenario_prices (collateral loan11_entity)) 0%Qc);
      reflexivity.
  - apply (proj1 (@compute_health_factor_sentinel scenario loan7_entity None
                    (Some (Qc_of_Z 1)) (Some (Qc_of_Z 3)))
             (Qc_of_Z 1) (Qc_of_Z 3)); [reflexivity..|discriminate].
Defined.

Lemma thresholds_by_category_witness :
  @compute_standardized_health_factor scenario loan7_entity
    (Some scenario_prices) None None
  = (collateral_usd_threshold ←
       Decimal_mul (liquidation_threshold 3)
         (scenario_usd scenario_prices (debt loan7_entity));
     if decide (collateral_usd_threshold = 0%Qc) then Ok Inf
     else Finite <$>
            round_context
              (scenario_usd scenario_prices (collateral loan7_entity)
               / collateral_usd_threshold)%Qc).
Proof.
  destruct (@thresholds_by_category scenario) as (_ & _ & _ & Hstd & _).
  apply (Hstd loan7_entity (Some scenario_prices) None None
           (scenario_usd scenario_prices (collateral loan7_entity))
           (scenario_usd scenario_prices (debt loan7_entity)));
    reflexivity.
Defined.

(* ------------------------------------------------------------------ *)
(** * The protocol-wide scans *)

Section Scans.
Context `{Collaborators}.

Lemma for_each_loan_sum (changed_prices : Prices) (debt_token : string)
    (D : HashstackLoanEntity → Qc) (HF : HashstackLoanEntity → health_factor)
    (entities : list HashstackLoanEntity) :
  (∀ loan_entity, loan_entity ∈ entities →
     0 < amount (debt loan_entity) debt_token →
     compute_debt_usd loan_entity (Some changed_prices) = Ok (D loan_entity)
     ∧ compute_health_factor loan_entity (Some changed_prices) None None
       = Ok (HF loan_entity)) →
  ∀ acc,
    for_each_loan (liquidable_debt_step changed_prices debt_token) acc entities
    = add_all acc (D <$> filter (qualifies debt_token HF) entities).
Proof.
  induction entities as [|loan_entity entities IH]; intros Hvalues acc;
    [done|].
  simpl. rewrite filter_cons.
  assert (∀ l, l ∈ entities → 0 < amount (debt l) debt_token →
            compute_debt_usd l (Some changed_prices) = Ok (D l)
            ∧ compute_health_factor l (Some changed_prices) None None
              = Ok (HF l)) as Hrest.
  { intros l Hl. apply Hvalues. by right. }
  destruct (decide (0 < amount (debt loan_entity) debt_token)) as [Hholds|Hholds].
  - destruct (Hvalues loan_entity) as [Hd Hhealth]; [by left|done|].
    assert (compute_health_factor loan_entity (Some changed_prices) None
              (Some (D loan_entity)) = Ok (HF loan_entity)) as Hhealth'.
    { revert Hhealth. unfold compute_health_factor. simpl. by rewrite Hd. }
    rewrite (liquidable_debt_step_value _ _ _ _ _ _ Hholds Hd Hhealth').
    destruct (hf_geb _ _) eqn:Hge.
    + simpl. rewrite IH by done. rewrite decide_False; [done|].
      intros [_ Hbelow%below_threshold_hf_geb]. congruence.
    + rewrite decide_True
        by (split; [done|by apply below_threshold_hf_geb]).
      simpl. destruct (Decimal_add acc (D loan_entity)); simpl; [|done].
      by apply IH.
  - rewrite liquidable_debt_step_skip by done. simpl.
    rewrite IH by done. rewrite decide_False; [done|]. by intros [? _].
Qed.

(** C3.  [compute_liquidable_debt_at_price] replaces the price of the
    collateral token and returns the sum of the debt values, under the
    changed prices, of exactly the loan entities that hold a strictly
    positive amount of the debt token and whose health factor under the
    changed prices is strictly below the threshold of their category;
    what [compute_debt_to_be_liquidated] adds for such a loan is its
    debt value, and every other loan adds nothing.  The sum is the
    running total of the loop, each addition being that of the decimal
    context, over the loan entities in the order of the store. *)
Theorem liquidable_debt_sums_qualifying_loans (self : HashstackState)
    (prices : Prices) (collateral_token : string)
    (collateral_token_price : Qc) (debt_token : string)
    (D : HashstackLoanEntity → Qc) (HF : HashstackLoanEntity → health_factor)
    (Hvalues :
       ∀ loan_entity, loan_entity ∈ loan_entity_values self →
         0 < amount (debt loan_entity) debt_token →
         compute_debt_usd loan_entity
           (Some (<[collateral_token := collateral_token_price]> prices))
         = Ok (D loan_entity)
         ∧ compute_health_factor loan_entity
             (Some (<[collateral_token := collateral_token_price]> prices))
             None None
           = Ok (HF loan_entity)) :
  compute_liquidable_debt_at_price self prices collateral_token
    collateral_token_price debt_token
  = sum_decimals
      (D <$> filter
               (λ loan_entity,
                  0 < amount (debt loan_entity) debt_token
                  ∧ below_threshold (HF loan_entity)
                      (debt_category loan_entity))
               (loan_entity_values self))
  ∧ (∀ loan_entity debt_usd,
       compute_debt_to_be_liquidated loan_entity (Some debt_usd) None
       = Ok debt_usd)
  ∧ (∀ max_liquidated_amount loan_entity,
       loan_entity ∈ loan_entity_values self →
       ¬ (0 < amount (debt loan_entity) debt_token
          ∧ below_threshold (HF loan_entity) (debt_category loan_entity)) →
       liquidable_debt_step
         (<[collateral_token := collateral_token_price]> prices)
         debt_token max_liquidated_amount loan_entity
       = Ok max_liquidated_amount).
Proof.
  split; [|split; [done|]].
  - unfold compute_liquidable_debt_at_price.
    by rewrite (for_each_loan_sum _ _ D HF).
  - intros acc loan_entity Hin Hnot.
    destruct (decide (0 < amount (debt loan_entity) debt_token))
      as [Hholds|Hholds]; [|by apply liquidable_debt_step_skip].
    destruct (Hvalues loan_entity Hin Hholds) as [Hd Hhealth].
    assert (compute_health_factor loan_entity
              (Some (<[collateral_token := collateral_token_price]> prices))
              None (Some (D loan_entity)) = Ok (HF loan_entity)) as Hhealth'.
    { revert Hhealth. unfold compute_health_factor. simpl. by rewrite Hd. }
    rewrite (liquidable_debt_step_value _ _ _ _ _ _ Hholds Hd Hhealth').
    destruct (hf_geb _ _) eqn:Hge; [done|].
    destruct Hnot. split; [done|]. by apply below_threshold_hf_geb.
Qed.

Lemma active_borrowers_are_active_users (self : HashstackState) :
  unique_active_borrowers self ⊆ unique_active_users self.
Proof.
  unfold unique_active_borrowers, unique_active_users.
  intros u. rewrite !elem_of_list_to_set, !list_elem_of_fmap.
  intros (loan_entity & -> & Hl). exists loan_entity. split; [done|].
  apply list_elem_of_filter in Hl as [Hdebt Hl].
  apply list_elem_of_filter. split; [by right|done].
Qed.

(** C10.  The active borrowers are among the active users, both being
    sets of users, so [compute_number_of_active_borrowers] never exceeds
    [compute_number_of_active_users]. *)
Theorem active_borrowers_le_active_users (self : HashstackState) :
  unique_active_borrowers self ⊆ unique_active_users self
  ∧ (compute_number_of_active_borrowers self
     ≤ compute_number_of_active_users self)%nat.
Proof.
  split; [apply active_borrowers_are_active_users|].
  apply subseteq_size, active_borrowers_are_active_users.
Qed.
End Scans.

Lemma three_loans_values :
  Forall (λ l,
     @compute_debt_usd scenario l (Some scenario_prices_B1)
     = Ok (scenario_usd scenario_prices_B1 (debt l))
     ∧ @compute_health_factor scenario l (Some scenario_prices_B1) None None
       = Ok (scenario_health scenario_prices_B1 l))
    (loan_entity_values three_loans).
Proof. apply (bool_decide_unpack _). vm_compute. exact I. Qed.

Lemma liquidable_debt_sums_qualifying_loans_witness :
  @compute_liquidable_debt_at_price scenario three_loans scenario_prices
    "B" (Qc_of_Z 1) "A" = Ok (Qc_of_Z 100).
Proof.
  rewrite (proj1 (@liquidable_debt_sums_qualifying_loans scenario three_loans
             scenario_prices "B" (Qc_of_Z 1) "A"
             (λ l, scenario_usd scenario_prices_B1 (debt l))
             (scenario_health scenario_prices_B1)
             (λ l Hl _, proj1 (Forall_forall _ _) three_loans_values l Hl))).
  apply (bool_decide_unpack _). vm_compute. exact I.
Defined.

(* ------------------------------------------------------------------ *)
(** * The scenarios, evaluated *)

Example int16_examples :
  int16 "0x64" = Ok 100 ∧ int16 "1f" = Ok 31 ∧ int16 "0X1F" = Ok 31
  ∧ int16 " -0x1f " = Ok (-31) ∧ int16 "+1_f" = Ok 31
  ∧ int16 "0x_1f" = Ok 31
  ∧ int16 "" = Raise ValueError ∧ int16 "0x" = Raise ValueError
  ∧ int16 "0xzz" = Raise ValueError ∧ int16 "1__f" = Raise ValueError
  ∧ int16 "1f_" = Raise ValueError ∧ int16 "_1f" = Raise ValueError
  ∧ int16 "- 1f" = Raise ValueError ∧ int16 "1 f" = Raise ValueError.
Proof. repeat split. Qed.

(** Loan 7 is created with [collateral[B] == 70]. *)
Example loan7_created_state :
  @process_new_loan_event scenario (HashstackState_init None) loan7_created
  = Ok loan7_state
  ∧ collateral loan7_entity !! "B" = Some 70.
Proof. split; reflexivity. Qed.

(** A creation event whose field 14 is no token address decodes at the
    second layout. *)
Example second_layout_used :
  let event :=
    {| block_number := 90; transaction_hash := "0x00"; ev_key_name := new_loan;
       data := take 13 (loan_record "0x8" "0x51" "0xa" "0x64" "0xb" "0x14" "0x3")
               ++ ["0xb"; "0x32"; "0x0"; "0x32"; "0x0"] |} in
  @first_layout scenario event = Raise KeyError
  ∧ ∃ self entity,
      @process_new_loan_event scenario (HashstackState_init None) event = Ok self
      ∧ loan_entities self !! 8 = Some entity
      ∧ original_collateral entity = {["B" := 50]}.
Proof. split; [reflexivity|]. eexists _, _. repeat split. Qed.

(** With [B] at two USD, loan 7 is above its threshold and nothing is
    liquidable; the repaid loan 11 holds no debt at either price. *)
Example nothing_liquidable_at_two_usd :
  @compute_liquidable_debt_at_price scenario three_loans scenario_prices
    "B" (Qc_of_Z 2) "A" = Ok 0%Qc.
Proof. apply (bool_decide_unpack _). vm_compute. exact I. Qed.

(** Three loans, two users, both borrowing. *)
Example active_users_of_three_loans :
  @compute_number_of_active_users scenario three_loans = 2%nat
  ∧ @compute_number_of_active_borrowers scenario three_loans = 2%nat.
Proof. split; reflexivity. Qed.

(** The two orders of the tied events replay to different stores. *)
Example tied_events_replay_differently :
  @replay scenario loan7_state
    (get_events [loan7_collateral_added; loan7_collateral_added_twice])
  ≠ @replay scenario loan7_state
      (get_events [loan7_collateral_added_twice; loan7_collateral_added]).
Proof. vm_compute. discriminate. Qed.

(** The arithmetic of the decimal context: 28 significant digits, a tie
    to the even digit. *)
Example decimal_context_examples :
  Decimal_div (Qc_of_Z 1) (Qc_of_Z 3)
  = Ok (scale 3333333333333333333333333333 (-28))
  ∧ Decimal_div (Qc_of_Z 140) (Qc_of_Z 104)
    = Ok (scale 1346153846153846153846153846 (-27))
  ∧ Decimal_add (Qc_of_Z 9999999999999999999999999999) (scale 6 (-1))
    = Ok (scale 1000000000000000000000000000 1)
  ∧ Decimal_add (Qc_of_Z 9999999999999999999999999999) (scale 4 (-1))
    = Ok (Qc_of_Z 9999999999999999999999999999)
  ∧ Decimal_add (Qc_of_Z 10000000000000000000000000000) (Qc_of_Z 5)
    = Ok (Qc_of_Z 10000000000000000000000000000)
  ∧ Decimal_add (Qc_of_Z 10000000000000000000000000010) (Qc_of_Z 5)
    = Ok (Qc_of_Z 10000000000000000000000000020)
  ∧ Decimal_mul (scale 104 (-2)) (Qc_of_Z 3) = Ok (scale 312 (-2))
  ∧ Decimal_div (Qc_of_Z 1) 0 = Raise DivisionByZero
  ∧ Decimal_div 0 0 = Raise InvalidOperation
  ∧ Decimal_add_amount (10 ^ 28 + 1) 1 = 10 ^ 28.
Proof. repeat split; apply (bool_decide_unpack _); vm_compute; exact I. Qed.

(** The collateral of loan 13 is the sum of 29 digits as the context
    rounds it. *)
Example loan13_collateral :
  ∃ self entity,
    @process_new_loan_event scenario (HashstackState_init None) loan13_created
    = Ok self
    ∧ loan_entities self !! 13 = Some entity
    ∧ amount (original_collateral entity) "B" = 10 ^ 28 + 1
    ∧ amount (borrowed_collateral entity) "B" = 1
    ∧ collateral entity !! "B" = Some (10 ^ 28).
Proof.
  eexists _, _. split; [reflexivity|]. split; [reflexivity|].
  repeat split; apply (bool_decide_unpack _); vm_compute; exact I.
Qed.

(** The health factor of loan 14 is the quotient as the context rounds
    it, 1.04, which is not below the threshold although the quotient is:
    the scan passes the loan over.  Its standardized health factor is
    below one all the same. *)
Example loan14_at_the_threshold :
  @compute_collateral_usd fine_scenario loan14_entity (Some unit_prices)
  = Ok (scale 3119999999999999999999999999 (-27))
  ∧ @compute_debt_usd fine_scenario loan14_entity (Some unit_prices)
    = Ok (Qc_of_Z 3)
  ∧ (scale 3119999999999999999999999999 (-27) / Qc_of_Z 3
     < liquidation_threshold 3)%Qc
  ∧ @compute_health_factor fine_scenario loan14_entity (Some unit_prices)
      None None
    = Ok (Finite (liquidation_threshold 3))
  ∧ @liquidable_debt_step fine_scenario unit_prices "A" 0%Qc loan14_entity
    = Ok 0%Qc
  ∧ @compute_standardized_health_factor fine_scenario loan14_entity
      (Some unit_prices) None None
    = Ok (Finite (scale 9999999999999999999999999997 (-28))).
Proof. repeat split; apply (bool_decide_unpack _); vm_compute; exact I. Qed.

(** The sum of the scan is a running total of 28 digits, so it follows
    the order of the loans: the same three loans give another total when
    the large debt was created last. *)
Example scan_follows_the_order :
  loan_entities large_debt_first = loan_entities large_debt_last
  ∧ @compute_liquidable_debt_at_price tenth_scenario large_debt_first
      unit_prices "B" (Qc_of_Z 1) "A"
    = Ok (Qc_of_Z 9999999999999999999999999999)
  ∧ @compute_liquidable_debt_at_price tenth_scenario large_debt_last
      unit_prices "B" (Qc_of_Z 1) "A"
    = Ok (Qc_of_Z 10000000000000000000000000000).
Proof. repeat split; apply (bool_decide_unpack _); vm_compute; exact I. Qed.

(* ------------------------------------------------------------------ *)
(** * More on the ordering of events *)

Lemma get_events_StronglySorted (l : list event) :
  StronglySorted key_le (get_events l).
Proof. apply Sorted_StronglySorted; [apply _|apply sort_values_Sorted]. Qed.

Lemma insert_row_head (e : event) (l : list event) :
  HdRel key_le e l → insert_row e l = e :: l.
Proof. destruct 1 as [|x l Hex]; simpl; [done|]. unfold key_le in Hex. by rewrite Hex. Qed.

Lemma sort_values_sorted_input (l : list event) :
  Sorted key_le l → sort_values l = l.
Proof.
  induction 1 as [|e l Hl IH He]; simpl; [done|].
  rewrite IH. by apply insert_row_head.
Qed.

(** X1.  In the frame [get_events] returns, block numbers never decrease,
    and within one transaction of one block the order numbers never
    decrease: an event placed after another one is in a later block, or
    in the same block and transaction with an order number at least as
    high.  So a [loan_repaid] event is never placed before a [new_loan],
    [loan_swap], [liquidated] or [loan_withdrawal] event of its
    transaction. *)
Theorem get_events_positions (l before after : list event) (x y : event)
    (Hsplit : get_events l = before ++ x :: after) (Hy : y ∈ after) :
  block_number x ≤ block_number y
  ∧ (block_number x = block_number y →
     transaction_hash x = transaction_hash y →
     order (ev_key_name x) ≤ order (ev_key_name y))
  ∧ (ev_key_name x = loan_repaid →
     block_number x = block_number y →
     transaction_hash x = transaction_hash y →
     ev_key_name y ∉ [new_loan; loan_swap; liquidated; loan_withdrawal]).
Proof.
  assert (key_le x y) as Hxy.
  { pose proof (get_events_StronglySorted l) as Hs. rewrite Hsplit in Hs.
    apply StronglySorted_app_1_r in Hs. apply StronglySorted_inv in Hs as [_ Hs].
    rewrite Forall_forall in Hs. by apply Hs. }
  unfold key_le, sort_key in Hxy. apply key_leb_spec in Hxy.
  assert (block_number x = block_number y → transaction_hash x = transaction_hash y →
          order (ev_key_name x) ≤ order (ev_key_name y)) as Horder.
  { intros Hb Hh. destruct Hxy as [?|[_ [Hlt|[_ ?]]]]; [lia| |done].
    rewrite Hh, string_compare_refl in Hlt. done. }
  split; [destruct Hxy as [?|[? _]]; lia|]. split; [done|].
  intros Hx Hb Hh Hin. specialize (Horder Hb Hh). rewrite Hx in Horder.
  rewrite !elem_of_cons in Hin.
  destruct Hin as [Hk|[Hk|[Hk|[Hk|Hk]]]]; [rewrite Hk in Horder; simpl in Horder; lia..|].
  by apply elem_of_nil in Hk.
Qed.

Lemma get_events_positions_witness :
  get_events [loan7_repaid_at_creation; loan7_created]
  = [loan7_created; loan7_repaid_at_creation]
  ∧ order (ev_key_name loan7_created)
    ≤ order (ev_key_name loan7_repaid_at_creation).
Proof.
  split; [reflexivity|].
  apply (get_events_positions [loan7_repaid_at_creation; loan7_created]
           [] [loan7_repaid_at_creation] loan7_created loan7_repaid_at_creation);
    [reflexivity|by left|reflexivity|reflexivity].
Defined.

(** X2.  [get_events] leaves a frame that already ascends on the key as
    it is, so sorting a second time changes nothing. *)
Theorem get_events_of_sorted (l : list event) :
  (Sorted key_le l → get_events l = l)
  ∧ get_events (get_events l) = get_events l.
Proof.
  split; [apply sort_values_sorted_input|].
  apply sort_values_sorted_input, sort_values_Sorted.
Qed.

Lemma get_events_of_sorted_witness :
  get_events [loan7_created; loan7_collateral_added; loan7_liquidated]
  = [loan7_created; loan7_collateral_added; loan7_liquidated].
Proof.
  apply (proj1 (get_events_of_sorted
                  [loan7_created; loan7_collateral_added; loan7_liquidated])).
  repeat constructor.
Defined.

(* ------------------------------------------------------------------ *)
(** * What a successful handler did *)

Section HandlerShapes.
Context `{Collaborators}.

Lemma collateral_handler_inv (k : key_name) (self self' : HashstackState)
    (event : event) :
  rewrites_collateral k →
  EVENTS_METHODS_MAPPING k self event = Ok self' →
  ∃ loan_id token face_amount old,
    loan_entities self !! loan_id = Some old
    ∧ self' = store self loan_id
                (rewrite_original (<[token := face_amount]> TokenAmounts_new) old).
Proof.
  intros [->|[->| ->]] Hrun; simpl in Hrun;
    [unfold process_collateral_added_event in Hrun
    |unfold process_collateral_withdrawal_event in Hrun
    |unfold process_loan_interest_deducted_event in Hrun];
    res_inv Hrun; subst self';
    match goal with Hl : load _ _ = Ok _ |- _ => apply load_Ok in Hl end;
    by eexists _, _, _, _.
Qed.

Lemma debt_handler_inv (k : key_name) (self self' : HashstackState)
    (event : event) :
  rewrites_debt k →
  EVENTS_METHODS_MAPPING k self event = Ok self' →
  ∃ loan_id borrowed_token borrowed_amount debt_token debt_amount category old,
    loan_entities self !! loan_id = Some old
    ∧ self' = store self loan_id
                (rewrite_loan (<[borrowed_token := borrowed_amount]> TokenAmounts_new)
                   (<[debt_token := debt_amount]> TokenAmounts_new) category old)
    ∧ (k = loan_repaid → borrowed_amount = 0 ∧ debt_amount = 0)
    ∧ (k = loan_swap →
       debt old = <[debt_token := debt_amount]> TokenAmounts_new).
Proof.
  intros [->|[->| ->]] Hrun; simpl in Hrun.
  - unfold process_loan_withdrawal_event in Hrun. res_inv Hrun. subst self'.
    match goal with Hl : load _ _ = Ok _ |- _ => apply load_Ok in Hl end.
    eexists _, _, _, _, _, _, _. by repeat split.
  - unfold process_loan_repaid_event in Hrun. res_inv Hrun. subst self'.
    match goal with Hl : load _ _ = Ok _ |- _ => apply load_Ok in Hl end.
    match goal with
    | Ha : assert (bool_decide (_ = 0)) = Ok _ |- _ =>
        apply assert_Ok, bool_decide_eq_true_1 in Ha; subst
    end.
    eexists _, _, _, _, _, _, _. by repeat split.
  - unfold process_loan_swap_event in Hrun. res_inv Hrun. subst self'.
    repeat match goal with
           | Hl : load _ _ = Ok _ |- _ => apply load_Ok in Hl
           | Ha : assert (bool_decide _) = Ok _ |- _ =>
               apply assert_Ok, bool_decide_eq_true_1 in Ha
           end.
    subst. simplify_eq. simpl in *.
    eexists _, _, _, _, _, _, _. repeat split; [done..|]. by intros _.
Qed.

Lemma liquidated_inv (self self' : HashstackState) (event : event) :
  process_liquidated_event self event = Ok self' →
  ∃ loan_id borrowed_token debt_token category old,
    loan_entities self !! loan_id = Some old
    ∧ self' = store self loan_id
                (rewrite_liquidated (<[borrowed_token := 0]> TokenAmounts_new)
                   (<[debt_token := 0]> TokenAmounts_new) category old).
Proof.
  intros Hrun. unfold process_liquidated_event in Hrun. res_inv Hrun. subst self'.
  match goal with Hl : load _ _ = Ok _ |- _ => apply load_Ok in Hl end.
  match goal with
  | Ha : assert (bool_decide (_ = 0)) = Ok _ |- _ =>
      apply assert_Ok, bool_decide_eq_true_1 in Ha; subst
  end.
  by eexists _, _, _, _, _.
Qed.

Lemma new_loan_inv (self self' : HashstackState) (event : event) :
  process_new_loan_event self event = Ok self' →
  ∃ loan_id user category debt_token debt_amount borrowed_token borrowed_amount
    original,
    self' = store self loan_id
              (created_entity user category debt_token debt_amount
                 borrowed_token borrowed_amount original).
Proof.
  intros Hrun. unfold process_new_loan_event in Hrun. res_inv Hrun. subst self'.
  by eexists _, _, _, _, _, _, _, (_, _).
Qed.

(** The cases of a successful handler. *)
Lemma handler_cases (k : key_name) :
  k = new_loan ∨ rewrites_collateral k ∨ rewrites_debt k ∨ k = liquidated.
Proof. unfold rewrites_collateral, rewrites_debt. destruct k; naive_solver. Qed.

Lemma handler_stores (k : key_name) (self self' : HashstackState)
    (event : event) :
  EVENTS_METHODS_MAPPING k self event = Ok self' →
  ∃ loan_id entity,
    self' = store self loan_id entity
    ∧ dom (collateral entity) = dom TOKEN_DECIMAL_FACTORS
    ∧ (k ≠ new_loan →
       ∃ old, loan_entities self !! loan_id = Some old
              ∧ user entity = user old).
Proof.
  intros Hrun.
  assert (∀ entity, dom (sum_collateral entity) = dom TOKEN_DECIMAL_FACTORS)
    as Hdom.
  { intros entity. apply set_eq. intros t. rewrite !elem_of_dom.
    unfold sum_collateral. rewrite map_lookup_imap.
    destruct (TOKEN_DECIMAL_FACTORS !! t); simpl; split; intros [? ?]; eauto; done. }
  destruct (handler_cases k) as [->|[Hk|[Hk| ->]]].
  - apply new_loan_inv in Hrun as (? & ? & ? & ? & ? & ? & ? & ? & ->).
    eexists _, _. split; [done|]. split; [apply Hdom|done].
  - apply collateral_handler_inv in Hrun as (id & ? & ? & old & Hold & ->); [|done].
    eexists _, _. split; [done|]. split; [apply Hdom|]. by exists old.
  - apply debt_handler_inv in Hrun
      as (id & ? & ? & ? & ? & ? & old & Hold & -> & _); [|done].
    eexists _, _. split; [done|]. split; [apply Hdom|]. by exists old.
  - apply liquidated_inv in Hrun as (id & ? & ? & ? & old & Hold & ->).
    eexists _, _. split; [done|]. split; [apply Hdom|]. by exists old.
Qed.
End HandlerShapes.

(* ------------------------------------------------------------------ *)
(** * Loans across the handlers *)

Section Lifecycle.
Context `{Collaborators}.

(** X3.  A handler that succeeds writes one loan and nothing else: every
    other loan is as it was, no loan is deleted, and only [new_loan] can
    add a loan id to the store. *)
Theorem handler_writes_one_loan (k : key_name) (self self' : HashstackState)
    (event : event)
    (Hrun : EVENTS_METHODS_MAPPING k self event = Ok self') :
  verbose_user self' = verbose_user self
  ∧ dom (loan_entities self) ⊆ dom (loan_entities self')
  ∧ (k ≠ new_loan → dom (loan_entities self') = dom (loan_entities self))
  ∧ ∃ loan_id,
      is_Some (loan_entities self' !! loan_id)
      ∧ ∀ other, other ≠ loan_id →
          loan_entities self' !! other = loan_entities self !! other.
Proof.
  apply handler_stores in Hrun as (loan_id & entity & -> & _ & Hold).
  split; [done|]. simpl. split; [|split].
  - rewrite dom_insert_L. apply union_subseteq_r.
  - intros Hk. destruct (Hold Hk) as (old & Hl & _).
    by apply dom_insert_lookup_L.
  - exists loan_id. rewrite lookup_insert_eq. split; [done|].
    intros other Hother. by rewrite lookup_insert_ne.
Qed.

(** X4.  The owner of a loan is set by [new_loan] alone: after any other
    handler every loan of the store is still there with the user it
    had. *)
Theorem owner_kept (k : key_name) (self self' : HashstackState)
    (event : event) (loan_id : Z) (old : HashstackLoanEntity)
    (Hk : k ≠ new_loan)
    (Hrun : EVENTS_METHODS_MAPPING k self event = Ok self')
    (Hold : loan_entities self !! loan_id = Some old) :
  ∃ entity,
    loan_entities self' !! loan_id = Some entity ∧ user entity = user old.
Proof.
  apply handler_stores in Hrun as (written & entity & -> & _ & Hwritten).
  destruct (Hwritten Hk) as (old' & Hold' & Huser). simpl.
  destruct (decide (written = loan_id)) as [->|Hne].
  - rewrite lookup_insert_eq. exists entity. split; [done|]. congruence.
  - rewrite lookup_insert_ne by done. by exists old.
Qed.

(** X5.  The handlers rewrite the fields of their own record only.  The
    three collateral handlers leave the debt, the borrowed collateral and
    the debt category of every loan as they were; [loan_withdrawal],
    [loan_repaid] and [loan_swap] leave every original collateral as it
    was. *)
Theorem fields_kept (k : key_name) (self self' : HashstackState)
    (event : event) (loan_id : Z) (old : HashstackLoanEntity)
    (Hrun : EVENTS_METHODS_MAPPING k self event = Ok self')
    (Hold : loan_entities self !! loan_id = Some old) :
  (rewrites_collateral k →
   ∃ entity,
     loan_entities self' !! loan_id = Some entity
     ∧ debt entity = debt old
     ∧ borrowed_collateral entity = borrowed_collateral old
     ∧ debt_category entity = debt_category old)
  ∧ (rewrites_debt k →
     ∃ entity,
       loan_entities self' !! loan_id = Some entity
       ∧ original_collateral entity = original_collateral old).
Proof.
  split; intros Hk.
  - apply collateral_handler_inv in Hrun
      as (written & ? & ? & old' & Hold' & ->); [|done]. simpl.
    destruct (decide (written = loan_id)) as [->|Hne].
    + rewrite lookup_insert_eq. eexists. split; [done|]. simpl.
      by simplify_eq.
    + rewrite lookup_insert_ne by done. by exists old.
  - apply debt_handler_inv in Hrun
      as (written & ? & ? & ? & ? & ? & old' & Hold' & -> & _); [|done]. simpl.
    destruct (decide (written = loan_id)) as [->|Hne].
    + rewrite lookup_insert_eq. eexists. split; [done|]. simpl.
      by simplify_eq.
    + rewrite lookup_insert_ne by done. by exists old.
Qed.

(** X6.  A swap that succeeds changes no debt: the debt the event reports
    has to be the debt the loan already had. *)
Theorem swap_keeps_debt (self self' : HashstackState) (event : event)
    (loan_id : Z) (old : HashstackLoanEntity)
    (Hrun : process_loan_swap_event self event = Ok self')
    (Hold : loan_entities self !! loan_id = Some old) :
  ∃ entity,
    loan_entities self' !! loan_id = Some entity ∧ debt entity = debt old.
Proof.
  apply (debt_handler_inv loan_swap) in Hrun
    as (written & ? & ? & ? & ? & ? & old' & Hold' & -> & _ & Hdebt);
    [|by right; right]. simpl.
  destruct (decide (written = loan_id)) as [->|Hne].
  - rewrite lookup_insert_eq. eexists. split; [done|]. simpl.
    simplify_eq. by rewrite Hdebt.
  - rewrite lookup_insert_ne by done. by exists old.
Qed.

(** X7.  A swap event whose new debt differs from the stored debt of
    the loan in the amount of some token fails with [AssertionError], the
    other assertions holding and the fields decoding: a swap of a part of
    the debt, or into a debt of another token, is refused. *)
Theorem swap_of_other_debt_raises (self : HashstackState) (event : event)
    (loan_id : Z) (old : HashstackLoanEntity)
    (debt_token : string) (debt_amount : Z)
    (borrowed_token : string) (borrowed_amount category : Z)
    (Hid : getitem (data event) 0 ≫= int16 = Ok loan_id)
    (Huser : getitem (data event) 1 = Ok (user old))
    (Hold : loan_entities self !! loan_id = Some old)
    (Hnew_id : getitem (data event) 14 ≫= int16 = Ok loan_id)
    (Hnew_user : getitem (data event) 15 = Ok (user old))
    (Hdebt_token : getitem (data event) 16 ≫= get_symbol = Ok debt_token)
    (Hdebt_amount : getitem (data event) 18 ≫= int16 = Ok debt_amount)
    (Hborrowed_token :
       getitem (data event) 20 ≫= get_symbol = Ok borrowed_token)
    (Hborrowed_amount :
       getitem (data event) 21 ≫= int16 = Ok borrowed_amount)
    (Hcategory : getitem (data event) 24 ≫= int16 = Ok category)
    (Hdebt :
       amount (debt old) debt_token ≠ debt_amount
       ∨ ∃ token, token ≠ debt_token ∧ amount (debt old) token ≠ 0) :
  process_loan_swap_event self event = Raise AssertionError.
Proof.
  eapply swap_asserts_debt; try done.
  destruct Hdebt as [Hamount|(token & Htoken & Hamount)].
  - apply (amounts_differ _ _ debt_token).
    rewrite amount_singleton. by rewrite decide_True.
  - apply (amounts_differ _ _ token).
    rewrite amount_singleton. by rewrite decide_False.
Qed.
End Lifecycle.

Lemma handler_writes_one_loan_witness :
  ∃ self',
    @process_loan_withdrawal_event scenario three_loans loan7_withdrawn = Ok self'
    ∧ loan_entities self' !! 9 = Some loan9_entity
    ∧ dom (loan_entities self') = dom (loan_entities three_loans).
Proof.
  eexists. split; [reflexivity|].
  destruct (@handler_writes_one_loan scenario loan_withdrawal three_loans _
              loan7_withdrawn eq_refl) as (_ & _ & Hdom & _).
  split; [reflexivity|]. by apply Hdom.
Defined.

Lemma owner_kept_witness :
  ∃ self' entity,
    @process_loan_withdrawal_event scenario three_loans loan7_withdrawn = Ok self'
    ∧ loan_entities self' !! 7 = Some entity ∧ user entity = "0x51".
Proof.
  eexists. 
  destruct (@owner_kept scenario loan_withdrawal three_loans _ loan7_withdrawn
              7 loan7_entity ltac:(discriminate) eq_refl eq_refl)
    as (entity & Hentity & Huser).
  exists entity. by repeat split.
Defined.

Lemma fields_kept_witness :
  ∃ self' entity,
    @process_collateral_added_event scenario loan7_state loan7_collateral_added
    = Ok self'
    ∧ loan_entities self' !! 7 = Some entity
    ∧ debt entity = {["A" := 100]}
    ∧ borrowed_collateral entity = {["B" := 20]}.
Proof.
  eexists.
  destruct (proj1 (@fields_kept scenario collateral_added loan7_state _
                     loan7_collateral_added 7 loan7_entity eq_refl eq_refl))
    as (entity & Hentity & Hdebt & Hborrowed & _); [by left|].
  exists entity. by repeat split.
Defined.

Lemma swap_keeps_debt_witness :
  ∃ self' entity,
    @process_loan_swap_event scenario loan7_state loan7_swapped = Ok self'
    ∧ loan_entities self' !! 7 = Some entity
    ∧ debt entity = {["A" := 100]}
    ∧ borrowed_collateral entity = {["A" := 25]}
    ∧ debt_category entity = 2.
Proof.
  eexists.
  destruct (@swap_keeps_debt scenario loan7_state _ loan7_swapped 7 loan7_entity
              eq_refl eq_refl) as (entity & Hentity & Hdebt).
  exists entity. split; [reflexivity|]. split; [done|]. split; [done|].
  apply (inj Some) in Hentity as <-. by split.
Defined.

Lemma swap_of_other_debt_raises_witness :
  @process_loan_swap_event scenario loan7_state loan7_swapped_partly
  = Raise AssertionError.
Proof.
  apply (@swap_of_other_debt_raises scenario loan7_state loan7_swapped_partly
           7 loan7_entity "A" 90 "A" 25 2); try reflexivity.
  left. vm_compute. discriminate.
Defined.

(* ------------------------------------------------------------------ *)
(** * Handlers as rewrites *)

Lemma getitem_ext (d1 d2 : list string) (i : nat) :
  d1 !! i = d2 !! i → getitem d1 i = getitem d2 i.
Proof. unfold getitem. by intros ->. Qed.

Section Rewriting.
Context `{Collaborators}.

(** Runs a handler again on the store it returned. *)
Ltac run_again :=
  repeat match goal with
         | Hx : ?m = Ok _ |- context [?m] => rewrite Hx; simpl
         | |- context [load (store _ ?i _) ?i] =>
             unfold load at 1; simpl; rewrite lookup_insert_eq; simpl
         end.

(** X8.  The handlers are rewrites, not increments: processing an event a
    second time, right after it succeeded, succeeds and leaves the store
    the first processing left. *)
Theorem handler_idempotent (k : key_name) (self self' : HashstackState)
    (event : event)
    (Hrun : EVENTS_METHODS_MAPPING k self event = Ok self') :
  EVENTS_METHODS_MAPPING k self' event = Ok self'.
Proof.
  destruct k; simpl in *;
    [ unfold process_new_loan_event in *
    | unfold process_collateral_added_event in *
    | unfold process_collateral_withdrawal_event in *
    | unfold process_loan_withdrawal_event in *
    | unfold process_loan_repaid_event in *
    | unfold process_loan_swap_event in *
    | unfold process_loan_interest_deducted_event in *
    | unfold process_liquidated_event in * ];
    res_inv Hrun; subst self';
    repeat match goal with
           | Ha : assert (bool_decide (?n = _)) = Ok _ |- _ =>
               is_var n; apply assert_Ok, bool_decide_eq_true_1 in Ha; subst n
           | H1 : load ?s ?i = Ok ?a, H2 : load ?s ?i = Ok ?b |- _ =>
               rewrite H1 in H2; apply (inj Ok) in H2; subst b
           end;
    run_again;
    rewrite ?(bool_decide_eq_true_2 (_ = _)) by done; simpl;
    by rewrite ?store_store.
Qed.

(** X9.  A handler reads the fields of its layout and nothing else of
    the event: two events that agree on those fields, whatever their
    other fields, their block and their transaction, are processed
    alike. *)
Theorem handler_reads_its_layout (k : key_name) (self : HashstackState)
    (event1 event2 : event)
    (Hsame : Forall (λ i, data event1 !! i = data event2 !! i) (fields_read k)) :
  EVENTS_METHODS_MAPPING k self event1 = EVENTS_METHODS_MAPPING k self event2.
Proof.
  assert (∀ i, i ∈ fields_read k →
            getitem (data event1) i = getitem (data event2) i) as Hget.
  { intros i Hi. apply getitem_ext. rewrite Forall_forall in Hsame. auto. }
  destruct k; simpl in *;
    [ unfold process_new_loan_event
    | unfold process_collateral_added_event
    | unfold process_collateral_withdrawal_event
    | unfold process_loan_withdrawal_event
    | unfold process_loan_repaid_event
    | unfold process_loan_swap_event
    | unfold process_loan_interest_deducted_event
    | unfold process_liquidated_event ];
    repeat match goal with
           | |- context [getitem (data event1) ?i] =>
               rewrite (Hget i) by (by repeat constructor)
           end;
    done.
Qed.
End Rewriting.

Lemma handler_idempotent_witness :
  @process_loan_swap_event scenario loan7_state loan7_swapped
  = Ok loan7_state_swapped
  ∧ @process_loan_swap_event scenario loan7_state_swapped loan7_swapped
    = Ok loan7_state_swapped.
Proof.
  split; [reflexivity|].
  apply (@handler_idempotent scenario loan_swap loan7_state
           loan7_state_swapped loan7_swapped).
  reflexivity.
Defined.

Lemma handler_reads_its_layout_witness :
  @process_collateral_added_event scenario loan7_state loan7_collateral_added
  = @process_collateral_added_event scenario loan7_state
      loan7_collateral_added_variant.
Proof.
  apply (@handler_reads_its_layout scenario collateral_added loan7_state
           loan7_collateral_added loan7_collateral_added_variant).
  by repeat constructor.
Defined.

(* ------------------------------------------------------------------ *)
(** * The tokens of the collateral, and settled loans *)

Section Settled.
Context `{Collaborators}.

Lemma handler_keeps_known_tokens (k : key_name) (self self' : HashstackState)
    (event : event) :
  collateral_tokens_known self →
  EVENTS_METHODS_MAPPING k self event = Ok self' →
  collateral_tokens_known self'.
Proof.
  intros Hknown Hrun.
  apply handler_stores in Hrun as (written & entity & -> & Hdom & _).
  intros loan_id e. simpl. rewrite lookup_insert.
  case_decide; [by intros [= <-]|apply Hknown].
Qed.

Lemma replay_keeps_known_tokens (events : list event) :
  ∀ self self', collateral_tokens_known self → replay self events = Ok self' →
                collateral_tokens_known self'.
Proof.
  induction events as [|event events IH]; intros self self' Hknown Hrun.
  - by apply (inj Ok) in Hrun as <-.
  - simpl in Hrun. apply bind_Ok in Hrun as (self1 & Hstep & Hrun).
    eapply IH; [|done]. by eapply handler_keeps_known_tokens.
Qed.

(** X10.  After a replay from the empty store the collateral of every
    loan has an entry for each key of [TOKEN_DECIMAL_FACTORS] and for no
    other token: an amount of a token outside the table, which the
    original or the borrowed collateral may hold, does not reach the
    collateral. *)
Theorem collateral_has_the_known_tokens (verbose_user : option string)
    (events : list event) (self : HashstackState)
    (loan_id : Z) (entity : HashstackLoanEntity)
    (Hrun : replay (HashstackState_init verbose_user) events = Ok self)
    (Hentity : loan_entities self !! loan_id = Some entity) :
  dom (collateral entity) = dom TOKEN_DECIMAL_FACTORS
  ∧ ∀ token, token ∉ dom TOKEN_DECIMAL_FACTORS →
             collateral entity !! token = None.
Proof.
  assert (dom (collateral entity) = dom TOKEN_DECIMAL_FACTORS) as Hdom.
  { eapply (replay_keeps_known_tokens events _ self); [|done..].
    intros id e He. simpl in He. by rewrite lookup_empty in He. }
  split; [done|]. intros token Htoken.
  apply not_elem_of_dom. by rewrite Hdom.
Qed.

Lemma no_positive_amount_zero (token : string) :
  no_positive_amount (<[token := 0]> TokenAmounts_new).
Proof. intros t. rewrite amount_singleton_zero. lia. Qed.

(** X11.  A loan that [loan_repaid] or [liquidated] has just written
    holds no strictly positive debt in any token, so the liquidable-debt
    scan passes it over for every debt token and every price map, without
    valuing it. *)
Theorem settled_loan_is_passed_over (k : key_name)
    (self self' : HashstackState) (event : event)
    (Hk : k = loan_repaid ∨ k = liquidated)
    (Hrun : EVENTS_METHODS_MAPPING k self event = Ok self') :
  ∃ loan_id entity,
    getitem (data event) 0 ≫= int16 = Ok loan_id
    ∧ loan_entities self' !! loan_id = Some entity
    ∧ no_positive_amount (debt entity)
    ∧ ∀ changed_prices debt_token max_liquidated_amount,
        liquidable_debt_step changed_prices debt_token max_liquidated_amount
          entity
        = Ok max_liquidated_amount.
Proof.
  destruct Hk as [-> | ->]; simpl in Hrun;
    [unfold process_loan_repaid_event in Hrun
    |unfold process_liquidated_event in Hrun];
    res_inv Hrun; subst self';
    (eexists _, _; split; [done|]; simpl; rewrite lookup_insert_eq;
     split; [done|]; simpl;
     split; [apply no_positive_amount_zero|];
     intros changed_prices debt_token acc;
     apply liquidable_debt_step_skip; simpl; apply no_positive_amount_zero).
Qed.
End Settled.

Lemma collateral_has_the_known_tokens_witness :
  collateral loan7_entity_swapped !! "C" = None
  ∧ dom (collateral loan7_entity_swapped) = {["A"; "B"]}.
Proof.
  destruct (@collateral_has_the_known_tokens scenario None
              [loan7_created; loan7_swapped] loan7_state_swapped 7
              loan7_entity_swapped eq_refl eq_refl) as [Hdom Hnone].
  split.
  - apply Hnone. apply (bool_decide_unpack _). vm_compute. exact I.
  - rewrite Hdom. apply (bool_decide_unpack _). vm_compute. exact I.
Defined.

Lemma settled_loan_is_passed_over_witness :
  ∃ self' entity,
    @process_loan_repaid_event scenario loan7_state loan7_repaid = Ok self'
    ∧ loan_entities self' !! 7 = Some entity
    ∧ @liquidable_debt_step scenario ∅ "A" 0%Qc entity = Ok 0%Qc.
Proof.
  eexists.
  destruct (@settled_loan_is_passed_over scenario loan_repaid loan7_state _
              loan7_repaid ltac:(by left) eq_refl)
    as (loan_id & entity & Hid & Hentity & _ & Hskip).
  apply (inj Ok) in Hid as <-.
  exists entity. split; [reflexivity|]. split; [done|]. apply Hskip.
Defined.

(* ------------------------------------------------------------------ *)
(** * More on the liquidable-debt scan *)

Section ScanEdges.
Context `{Collaborators}.

Lemma for_each_loan_skips (changed_prices : Prices) (debt_token : string)
    (entities : list HashstackLoanEntity) :
  (∀ loan_entity, loan_entity ∈ entities → ¬ holds_debt debt_token loan_entity) →
  ∀ acc,
    for_each_loan (liquidable_debt_step changed_prices debt_token) acc entities
    = Ok acc.
Proof.
  induction entities as [|loan_entity entities IH]; intros Hnone acc; [done|].
  simpl. rewrite liquidable_debt_step_skip by (apply Hnone; by left). simpl.
  apply IH. intros l Hl. apply Hnone. by right.
Qed.

(** X12.  When no loan entity holds a strictly positive amount of the
    debt token, [compute_liquidable_debt_at_price] returns zero without
    valuing any loan, so it succeeds whatever the price map lacks; this
    is the case of the empty store. *)
Theorem scan_without_borrowers (self : HashstackState) (prices : Prices)
    (collateral_token : string) (collateral_token_price : Qc)
    (debt_token : string) :
  ((∀ loan_entity, loan_entity ∈ loan_entity_values self →
      ¬ holds_debt debt_token loan_entity) →
   compute_liquidable_debt_at_price self prices collateral_token
     collateral_token_price debt_token = Ok 0%Qc)
  ∧ compute_liquidable_debt_at_price (HashstackState_init (verbose_user self))
      prices collateral_token collateral_token_price debt_token = Ok 0%Qc.
Proof.
  unfold compute_liquidable_debt_at_price. split.
  - intros Hnone. by apply for_each_loan_skips.
  - apply for_each_loan_skips. unfold loan_entity_values. simpl.
    by intros l ?%elem_of_nil.
Qed.

Lemma for_each_loan_raises (body : Qc → HashstackLoanEntity → res Qc)
    (entities : list HashstackLoanEntity) (bad : HashstackLoanEntity) :
  bad ∈ entities →
  (∀ acc, ∃ e, body acc bad = Raise e) →
  ∀ acc, ∃ e, for_each_loan body acc entities = Raise e.
Proof.
  intros Hbad Hraise.
  induction entities as [|loan_entity entities IH]; intros acc.
  { by apply elem_of_nil in Hbad. }
  simpl. apply elem_of_cons in Hbad as [<-|Hbad].
  - destruct (Hraise acc) as [e ->]. by exists e.
  - destruct (body acc loan_entity) as [acc'|e]; simpl; [by apply IH|by exists e].
Qed.

(** X13.  The scan does not pass over a loan it cannot value: if a loan
    entity holding a strictly positive amount of the debt token has no
    debt value, or no collateral value, under the changed prices, the
    scan raises instead of returning a sum without it. *)
Theorem scan_raises_on_unvalued_loan (self : HashstackState) (prices : Prices)
    (collateral_token : string) (collateral_token_price : Qc)
    (debt_token : string) (loan_entity : HashstackLoanEntity) (e : exn)
    (Hin : loan_entity ∈ loan_entity_values self)
    (Hholds : holds_debt debt_token loan_entity)
    (Hraise :
       compute_debt_usd loan_entity
         (Some (<[collateral_token := collateral_token_price]> prices))
       = Raise e
       ∨ compute_collateral_usd loan_entity
           (Some (<[collateral_token := collateral_token_price]> prices))
         = Raise e) :
  ∃ e', compute_liquidable_debt_at_price self prices collateral_token
          collateral_token_price debt_token = Raise e'.
Proof.
  unfold compute_liquidable_debt_at_price.
  apply (for_each_loan_raises _ _ loan_entity); [done|].
  intros acc. unfold liquidable_debt_step.
  rewrite bool_decide_eq_true_2 by by apply holds_debt_token. simpl.
  destruct (compute_debt_usd loan_entity _) as [d|e1] eqn:Hd; simpl;
    [|by exists e1].
  destruct Hraise as [?|Hc]; [done|].
  unfold compute_health_factor. simpl. rewrite Hc. simpl. by exists e.
Qed.

End ScanEdges.

Lemma scan_without_borrowers_witness :
  @compute_liquidable_debt_at_price scenario three_loans prices_without_B
    "A" (Qc_of_Z 1) "B" = Ok 0%Qc.
Proof.
  apply (proj1 (@scan_without_borrowers scenario three_loans prices_without_B
                  "A" (Qc_of_Z 1) "B")).
  apply Forall_forall. apply (bool_decide_unpack _). vm_compute. exact I.
Defined.

Lemma scan_raises_on_unvalued_loan_witness :
  ∃ e, @compute_liquidable_debt_at_price scenario three_loans prices_without_B
         "A" (Qc_of_Z 1) "A" = Raise e.
Proof.
  apply (@scan_raises_on_unvalued_loan scenario three_loans prices_without_B
           "A" (Qc_of_Z 1) "A" loan7_entity KeyError).
  - apply (bool_decide_unpack _). vm_compute. exact I.
  - apply (bool_decide_unpack _). vm_compute. exact I.
  - right. apply (bool_decide_unpack _). vm_compute. exact I.
Defined.

(* ------------------------------------------------------------------ *)
(** * The bounds of the threshold *)

Lemma liquidation_threshold_bounds (category : Z) :
  (Decimal_1_04 ≤ liquidation_threshold category
   ∧ liquidation_threshold category ≤ Decimal_1_06)%Qc.
Proof.
  rewrite <-threshold_of_category.
  repeat case_decide; split; by apply (bool_decide_unpack _).
Qed.

Section ThresholdBounds.
Context `{Collaborators}.

(** X16.  Whatever the debt category of a loan, the threshold the scan
    compares its health factor with lies between 1.04 and 1.06: a loan
    holding the debt token whose health factor is below 1.04 is counted
    by the scan in every category, and one whose health factor is 1.06
    or more is counted in none. *)
Theorem liquidable_whatever_the_category (changed_prices : Prices)
    (debt_token : string) (max_liquidated_amount : Qc)
    (loan_entity : HashstackLoanEntity) (debt_usd health : Qc)
    (Hholds : holds_debt debt_token loan_entity)
    (Hdebt : compute_debt_usd loan_entity (Some changed_prices) = Ok debt_usd)
    (Hhealth :
       compute_health_factor loan_entity (Some changed_prices) None
         (Some debt_usd) = Ok (Finite health)) :
  ((health < Q2Qc (104 # 100))%Qc →
   liquidable_debt_step changed_prices debt_token max_liquidated_amount
     loan_entity
   = Decimal_add max_liquidated_amount debt_usd)
  ∧ ((Q2Qc (106 # 100) ≤ health)%Qc →
     liquidable_debt_step changed_prices debt_token max_liquidated_amount
       loan_entity
     = Ok max_liquidated_amount).
Proof.
  destruct (liquidation_threshold_bounds (debt_category loan_entity))
    as [Hlow Hhigh].
  rewrite (liquidable_debt_step_value _ _ _ _ _ _ Hholds Hdebt Hhealth).
  simpl. split.
  - intros Hlt. rewrite bool_decide_eq_false_2; [done|].
    apply Qclt_not_le. by eapply Qclt_le_trans.
  - intros Hge. rewrite bool_decide_eq_true_2; [done|].
    by eapply Qcle_trans.
Qed.
End ThresholdBounds.

Lemma liquidable_whatever_the_category_witness :
  @liquidable_debt_step scenario scenario_prices_B1 "A" 0%Qc loan7_entity
  = Decimal_add 0%Qc (Qc_of_Z 100).
Proof.
  apply (proj1 (@liquidable_whatever_the_category scenario scenario_prices_B1
                  "A" 0%Qc loan7_entity (Qc_of_Z 100) (Q2Qc (70 # 100))
                  ltac:(vm_compute; reflexivity)
                  ltac:(apply (bool_decide_unpack _); vm_compute; exact I)
                  ltac:(apply (bool_decide_unpack _); vm_compute; exact I))).
  apply (bool_decide_unpack _). vm_compute. exact I.
Defined.

(* ------------------------------------------------------------------ *)
(** * Counting users *)

Lemma size_list_to_set_le (l : list string) :
  (size (list_to_set (C:=gset string) l) ≤ length l)%nat.
Proof.
  induction l as [|x l IH]; [apply Nat.eq_le_incl, size_empty|]. simpl.
  rewrite size_union_alt, size_singleton.
  pose proof (subseteq_size (list_to_set l ∖ {[x]}) (list_to_set (C:=gset string) l)
                ltac:(apply subseteq_difference_l; reflexivity)).
  lia.
Qed.

Lemma filter_none {A} (P : A → Prop) `{∀ x, Decision (P x)} (l : list A) :
  (∀ x, x ∈ l → ¬ P x) → filter P l = [].
Proof.
  induction l as [|x l IH]; intros Hnone; [done|].
  rewrite filter_cons, decide_False by (apply Hnone; by left).
  apply IH. intros y Hy. apply Hnone. by right.
Qed.

Lemma loan_entity_values_stored (self : HashstackState)
    (loan_entity : HashstackLoanEntity) :
  loan_entity ∈ loan_entity_values self →
  loan_entity ∈ (map_to_list (loan_entities self)).*2.
Proof.
  unfold loan_entity_values. rewrite list_elem_of_omap.
  intros (loan_id & _ & Hentity).
  apply list_elem_of_fmap. exists (loan_id, loan_entity). split; [done|].
  by apply elem_of_map_to_list.
Qed.

Lemma users_of_store_size (self : HashstackState) :
  (size (list_to_set (C:=gset string)
           (user <$> (map_to_list (loan_entities self)).*2))
   ≤ size (loan_entities self))%nat.
Proof.
  etrans; [apply size_list_to_set_le|].
  by rewrite !length_fmap, length_map_to_list.
Qed.

Section Users.
Context `{Collaborators}.

(** X17.  Users are counted as a set: neither count exceeds the number
    of loans in the store, each is zero for the empty store, and a store
    of loans without collateral and without debt has no active user. *)
Theorem active_users_at_most_loans (self : HashstackState) :
  (compute_number_of_active_users self ≤ size (loan_entities self))%nat
  ∧ (compute_number_of_active_borrowers self ≤ size (loan_entities self))%nat
  ∧ compute_number_of_active_users
      (HashstackState_init (verbose_user self)) = 0%nat
  ∧ ((∀ loan_entity, loan_entity ∈ loan_entity_values self →
        has_collateral loan_entity = false ∧ has_debt loan_entity = false) →
     compute_number_of_active_users self = 0%nat).
Proof.
  assert (∀ P `{∀ l, Decision (P l)},
            (size (list_to_set (C:=gset string)
                     (user <$> filter P (loan_entity_values self)))
             ≤ size (loan_entities self))%nat) as Hsize.
  { intros P ?. etrans; [|apply (users_of_store_size self)].
    apply subseteq_size. intros u.
    rewrite !elem_of_list_to_set, !list_elem_of_fmap.
    intros (l & -> & Hl). exists l. split; [done|].
    apply list_elem_of_filter in Hl as [_ Hl].
    by apply loan_entity_values_stored. }
  split; [|split; [|split]].
  - apply Hsize.
  - apply Hsize.
  - done.
  - intros Hnone.
    unfold compute_number_of_active_users, unique_active_users.
    assert (filter (λ l, has_collateral l ∨ has_debt l)
              (loan_entity_values self) = []) as ->.
    { apply filter_none. intros l Hl [Hc|Hd];
        destruct (Hnone l Hl) as [Hc' Hd']; [rewrite Hc' in Hc|rewrite Hd' in Hd];
        done. }
    done.
Qed.
End Users.

Lemma active_users_at_most_loans_witness :
  (@compute_number_of_active_users scenario three_loans < 3)%nat
  ∧ @compute_number_of_active_users scenario
      (store (HashstackState_init None) 1 (HashstackLoanEntity_init "0x54" 3))
    = 0%nat.
Proof.
  split; [apply (bool_decide_unpack _); vm_compute; exact I|].
  apply (proj2 (proj2 (proj2 (@active_users_at_most_loans scenario
           (store (HashstackState_init None) 1
              (HashstackLoanEntity_init "0x54" 3)))))).
  apply Forall_forall. apply (bool_decide_unpack _). vm_compute. exact I.
Defined.

(* ------------------------------------------------------------------ *)
(** * The order of the loans in the store *)

Lemma store_in_step (self : HashstackState) (loan_id : Z)
    (entity : HashstackLoanEntity) :
  loan_ids_in_step self → loan_ids_in_step (store self loan_id entity).
Proof.
  intros [Hnodup Hdom]. unfold loan_ids_in_step, store. simpl.
  destruct (decide (loan_id ∈ loan_ids self)) as [Hin|Hin].
  - split; [done|]. intros id. rewrite lookup_insert_is_Some, <-Hdom.
    destruct (decide (loan_id = id)) as [<-|Hne]; [by split; [left|]|].
    split; [by right|]. by intros [?|[_ ?]].
  - split.
    + apply NoDup_app. split; [done|]. split; [|apply NoDup_singleton].
      intros id Hid ->%list_elem_of_singleton. done.
    + intros id. rewrite elem_of_app, list_elem_of_singleton.
      rewrite lookup_insert_is_Some, <-Hdom.
      destruct (decide (loan_id = id)) as [<-|Hne]; [by split; [left|right]|].
      split; [intros [?|?]; [by right|done]|].
      intros [?|[_ ?]]; [done|by left].
Qed.

Lemma omap_lookup_values {A} (m : gmap Z A) (ids : list Z) :
  omap (λ id, m !! id) ids = (omap (λ id, pair id <$> m !! id) ids).*2.
Proof.
  induction ids as [|id ids IH]; [done|].
  cbn [omap list_omap]. destruct (m !! id); cbn; by rewrite IH.
Qed.

Lemma store_present (self : HashstackState) (loan_id : Z)
    (entity : HashstackLoanEntity) :
  loan_ids_in_step self → is_Some (loan_entities self !! loan_id) →
  loan_ids (store self loan_id entity) = loan_ids self.
Proof.
  intros [_ Hdom] Hpresent. simpl. by rewrite decide_True by by apply Hdom.
Qed.

Lemma store_prefix (self : HashstackState) (loan_id : Z)
    (entity : HashstackLoanEntity) :
  loan_ids self `prefix_of` loan_ids (store self loan_id entity).
Proof. simpl. case_decide; [done|]. by apply prefix_app_r. Qed.

Lemma in_step_values (self : HashstackState) :
  loan_ids_in_step self →
  loan_entity_values self ≡ₚ (map_to_list (loan_entities self)).*2.
Proof.
  intros [Hnodup Hdom]. unfold loan_entity_values.
  rewrite omap_lookup_values.
  apply fmap_Permutation, NoDup_Permutation.
  - clear Hdom. induction Hnodup as [|id ids Hid Hids IH]; simpl;
      [apply NoDup_nil_2|].
    destruct (loan_entities self !! id) as [entity|]; simpl; [|done].
    apply NoDup_cons. split; [|done].
    rewrite list_elem_of_omap. intros (id' & Hid' & Heq).
    destruct (loan_entities self !! id'); simplify_eq/=. done.
  - apply NoDup_map_to_list.
  - intros [id entity]. rewrite list_elem_of_omap, elem_of_map_to_list. split.
    + intros (id' & _ & Heq).
      destruct (loan_entities self !! id') eqn:Hid'; simplify_eq/=. done.
    + intros Hentity. exists id. split; [|by rewrite Hentity].
      apply Hdom. by rewrite Hentity.
Qed.

Section Order.
Context `{Collaborators}.

Lemma handler_keeps_in_step (k : key_name) (self self' : HashstackState)
    (event : event) :
  loan_ids_in_step self →
  EVENTS_METHODS_MAPPING k self event = Ok self' →
  loan_ids_in_step self'.
Proof.
  intros Hstep Hrun.
  apply handler_stores in Hrun as (loan_id & entity & -> & _).
  by apply store_in_step.
Qed.

Lemma replay_keeps_in_step (events : list event) :
  ∀ self self', loan_ids_in_step self → replay self events = Ok self' →
                loan_ids_in_step self'.
Proof.
  induction events as [|event events IH]; intros self self' Hstep Hrun.
  - by apply (inj Ok) in Hrun as <-.
  - simpl in Hrun. apply bind_Ok in Hrun as (self1 & Hrun1 & Hrun).
    eapply IH; [|done]. by eapply handler_keeps_in_step.
Qed.

(** X18.  After a replay from the empty store, the order in which the
    store yields its loans holds each loan of the store once.  A handler
    does not reorder it: a creation event for a loan id that is not in
    the store puts the loan at the end, and any other event leaves the
    order as it is.  So the liquidable-debt scan visits the loans in the
    order of their first creation events. *)
Theorem loans_in_order_of_creation (verbose_user : option string)
    (events : list event) (self : HashstackState)
    (Hrun : replay (HashstackState_init verbose_user) events = Ok self) :
  loan_ids_in_step self
  ∧ loan_entity_values self ≡ₚ (map_to_list (loan_entities self)).*2
  ∧ ∀ k event self',
      EVENTS_METHODS_MAPPING k self event = Ok self' →
      loan_ids self `prefix_of` loan_ids self'
      ∧ (k ≠ new_loan → loan_ids self' = loan_ids self)
      ∧ (∀ loan_id, loan_id ∈ loan_ids self → loan_id ∈ loan_ids self')
      ∧ (length (loan_ids self') ≤ S (length (loan_ids self)))%nat.
Proof.
  assert (loan_ids_in_step self) as Hstep.
  { eapply (replay_keeps_in_step events); [|done].
    split; [apply NoDup_nil_2|]. intros id. simpl.
    rewrite lookup_empty, elem_of_nil. split; [done|]. by intros [? ?]. }
  split; [done|]. split; [by apply in_step_values|].
  intros k event self' Hstep'.
  apply handler_stores in Hstep' as (loan_id & entity & -> & _ & Hold).
  split; [apply store_prefix|]. split; [|split].
  - intros Hk. destruct (Hold Hk) as (old & Hpresent & _).
    apply store_present; [done|]. by rewrite Hpresent.
  - intros id Hid. by eapply elem_of_prefix; [|apply store_prefix].
  - simpl. case_decide; [lia|]. rewrite length_app. simpl. lia.
Qed.
End Order.

Lemma loans_in_order_of_creation_witness :
  loan_ids loan7_state_swapped = [7]
  ∧ loan_entity_values loan7_state_swapped
    ≡ₚ (map_to_list (loan_entities loan7_state_swapped)).*2.
Proof.
  split; [reflexivity|].
  apply (@loans_in_order_of_creation scenario None
           [loan7_created; loan7_swapped] loan7_state_swapped eq_refl).
Defined.

(* ------------------------------------------------------------------ *)
(** * The health factor to 28 digits *)

Lemma scale_1_mono (k k' : Z) : k ≤ k' → (scale 1 k ≤ scale 1 k')%Qc.
Proof.
  intros Hk. unfold Qcle. rewrite !scale_Qeq.
  destruct (Z.leb_spec 0 k) as [H0|H0], (Z.leb_spec 0 k') as [H0'|H0'];
    try lia; unfold Qle, inject_Z; cbn [Qnum Qden];
    rewrite ?Z.mul_1_l, ?Z.mul_1_r.
  - apply Z.pow_le_mono_r; lia.
  - pose proof (pow10_pos (- k) ltac:(lia)). pose proof (pow10_pos k' H0').
    rewrite Z2Pos.id by done. nia.
  - pose proof (pow10_pos (- k) ltac:(lia)).
    pose proof (pow10_pos (- k') ltac:(lia)).
    rewrite !Z2Pos.id by done. apply Z.pow_le_mono_r; lia.
Qed.

Lemma round_context_accurate (q r : Qc) :
  (scale 1 Emin ≤ Qc_abs q)%Qc →
  round_context q = Ok r →
  (Qc_abs (r - q) * Qc_of_Z (2 * 10 ^ (prec - 1)) ≤ Qc_abs q)%Qc.
Proof. apply round_in_accurate. unfold prec. lia. Qed.

Lemma round_context_returns (q : Qc) :
  (Qc_abs q < scale 1 Emax)%Qc → ∃ r, round_context q = Ok r.
Proof.
  intros Hq. apply round_in_returns.
  - unfold prec. lia.
  - unfold Emin, Emax. lia.
  - intros Hreach%reaches_Qc_abs. exact (Qclt_not_le _ _ Hq Hreach).
Qed.

Lemma round_context_overflows (q : Qc) :
  (scale 1 (Emax + 1) ≤ Qc_abs q)%Qc → round_context q = Raise Overflow.
Proof.
  intros Hq. apply round_in_overflows.
  - unfold prec. lia.
  - unfold Emin, Emax. lia.
  - exact (Qc_abs_reaches _ _ Hq).
Qed.

Section Accuracy.
Context `{Collaborators}.

(** X19.  For a debt value that is not zero, [compute_health_factor]
    returns the quotient of the collateral value by the debt value to 28
    significant digits.  When the quotient is below [10 ^ Emax] a health
    factor is returned, and when the quotient also reaches [10 ^ Emin]
    the health factor is off by at most five parts in [10 ^ 28] of the
    quotient.  A quotient that reaches [10 ^ (Emax + 1)] raises
    [Overflow]. *)
Theorem health_factor_to_28_digits (self : HashstackLoanEntity)
    (prices : option Prices) (collateral_usd debt_usd : option Qc) (c d : Qc)
    (Hc : if_None collateral_usd (compute_collateral_usd self prices) = Ok c)
    (Hd : if_None debt_usd (compute_debt_usd self prices) = Ok d)
    (Hdebt : d ≠ 0%Qc) :
  ((Qc_abs (c / d) < scale 1 Emax)%Qc →
   ∃ health,
     compute_health_factor self prices collateral_usd debt_usd
     = Ok (Finite health)
     ∧ ((scale 1 Emin ≤ Qc_abs (c / d))%Qc →
        (Qc_abs (health - c / d) * Qc_of_Z (2 * 10 ^ 27)
         ≤ Qc_abs (c / d))%Qc))
  ∧ ((scale 1 (Emax + 1) ≤ Qc_abs (c / d))%Qc →
     compute_health_factor self prices collateral_usd debt_usd
     = Raise Overflow).
Proof.
  unfold compute_health_factor. rewrite Hc, Hd. simpl.
  rewrite decide_False by done. rewrite Decimal_div_nonzero by done.
  split.
  - intros [health Hhealth]%round_context_returns. exists health.
    rewrite Hhealth. split; [reflexivity|]. intros Hnormal.
    exact (round_context_accurate _ _ Hnormal Hhealth).
  - intros Hlarge. rewrite (round_context_overflows _ Hlarge). reflexivity.
Qed.
End Accuracy.

Lemma health_factor_to_28_digits_witness :
  ∃ health,
    @compute_health_factor scenario loan7_entity None
      (Some (Qc_of_Z 1)) (Some (Qc_of_Z 3))
    = Ok (Finite health)
    ∧ (Qc_abs (health - Qc_of_Z 1 / Qc_of_Z 3) * Qc_of_Z (2 * 10 ^ 27)
       ≤ Qc_abs (Qc_of_Z 1 / Qc_of_Z 3))%Qc.
Proof.
  destruct (proj1 (@health_factor_to_28_digits scenario loan7_entity None
                     (Some (Qc_of_Z 1)) (Some (Qc_of_Z 3))
                     (Qc_of_Z 1) (Qc_of_Z 3) eq_refl eq_refl
                     ltac:(discriminate)))
    as (health & Hhealth & Haccurate).
  - eapply Qclt_le_trans;
      [|apply (scale_1_mono 0 Emax); unfold Emax; lia].
    apply (bool_decide_unpack _). vm_compute. exact I.
  - exists health. split; [exact Hhealth|]. apply Haccurate.
    eapply Qcle_trans;
      [apply (scale_1_mono Emin (-1)); unfold Emin; lia|].
    apply (bool_decide_unpack _). vm_compute. exact I.
Defined.

(* ------------------------------------------------------------------ *)
(** * The sign of the liquidable debt *)

Lemma scale_nonneg (C e : Z) : 0 ≤ C → (0 ≤ scale C e)%Qc.
Proof.
  intros HC. unfold Qcle. rewrite scale_Qeq.
  destruct (0 <=? e) eqn:He; unfold Qle, inject_Z; cbn [Qnum Qden this].
  - apply Z.leb_le in He. pose proof (pow10_pos e He).
    change (Qnum (this 0%Qc)) with 0. change (QDen (this 0%Qc)) with 1. nia.
  - change (Qnum (this 0%Qc)) with 0. change (QDen (this 0%Qc)) with 1. lia.
Qed.

(** The context rounds a value that is not negative to one that is not
    negative. *)
Lemma round_in_nonneg (prec Emin Emax : Z) (q r : Qc) :
  (0 ≤ q)%Qc → round_in prec Emin Emax q = Ok r → (0 ≤ r)%Qc.
Proof.
  intros Hq Hr. rewrite (round_in_Ok _ _ _ _ _ Hr). apply scale_nonneg.
  pose proof (coefficient_in_nonneg prec Emin q).
  assert (0 ≤ Qnum q) as Hn.
  { revert Hq. unfold Qcle, Qle. cbn [Qnum Qden this].
    change (Qnum (this 0%Qc)) with 0. lia. }
  assert (0 ≤ Z.sgn (Qnum q)) by lia. nia.
Qed.

Section Sign.
Context `{Collaborators}.

Lemma liquidable_debt_step_nonneg (changed_prices : Prices)
    (debt_token : string) (acc acc' : Qc) (loan_entity : HashstackLoanEntity) :
  (∀ debt_usd,
     compute_debt_usd loan_entity (Some changed_prices) = Ok debt_usd →
     (0 ≤ debt_usd)%Qc) →
  (0 ≤ acc)%Qc →
  liquidable_debt_step changed_prices debt_token acc loan_entity = Ok acc' →
  (0 ≤ acc')%Qc.
Proof.
  intros Hdebt Hacc. unfold liquidable_debt_step.
  destruct (negb _); [by intros [= <-]|].
  destruct (compute_debt_usd loan_entity _) as [d|] eqn:Hd; simpl; [|done].
  destruct (compute_health_factor _ _ _ _) as [health|]; simpl; [|done].
  destruct (hf_geb _ _); [by intros [= <-]|]. simpl.
  apply round_in_nonneg.
  rewrite <-(Qcplus_0_l 0). apply Qcplus_le_compat; [done|]. by apply Hdebt.
Qed.

(** X20.  When no loan of the store has a negative debt value under the
    changed prices, what [compute_liquidable_debt_at_price] returns is
    not negative. *)
Theorem scan_not_negative (self : HashstackState) (prices : Prices)
    (collateral_token : string) (collateral_token_price : Qc)
    (debt_token : string) (liquidable_debt : Qc)
    (Hdebt :
       ∀ loan_entity debt_usd,
         loan_entity ∈ loan_entity_values self →
         compute_debt_usd loan_entity
           (Some (<[collateral_token := collateral_token_price]> prices))
         = Ok debt_usd →
         (0 ≤ debt_usd)%Qc)
    (Hscan :
       compute_liquidable_debt_at_price self prices collateral_token
         collateral_token_price debt_token = Ok liquidable_debt) :
  (0 ≤ liquidable_debt)%Qc.
Proof.
  revert Hscan. unfold compute_liquidable_debt_at_price.
  assert (0 ≤ 0)%Qc as Hacc by apply Qcle_refl. revert Hacc.
  generalize 0%Qc at 2 3 as acc.
  induction (loan_entity_values self) as [|loan_entity entities IH];
    intros acc Hacc Hscan.
  - by apply (inj Ok) in Hscan as <-.
  - simpl in Hscan. apply bind_Ok in Hscan as (acc' & Hstep & Hscan).
    eapply (IH (λ l d Hl, Hdebt l d (list_elem_of_further _ _ _ Hl)));
      [|done].
    eapply liquidable_debt_step_nonneg; [|done..].
    intros d. apply Hdebt. by left.
Qed.
End Sign.

Lemma scenario_debts_not_negative :
  ∀ loan_entity debt_usd,
    loan_entity ∈ loan_entity_values three_loans →
    @compute_debt_usd scenario loan_entity (Some scenario_prices_B1)
    = Ok debt_usd →
    (0 ≤ debt_usd)%Qc.
Proof.
  intros loan_entity debt_usd Hin Hd.
  assert (Forall (λ l, 0 ≤ scenario_usd scenario_prices_B1 (debt l))%Qc
            (loan_entity_values three_loans)) as Hall.
  { apply (bool_decide_unpack _). vm_compute. exact I. }
  destruct (proj1 (Forall_forall _ _) three_loans_values loan_entity Hin)
    as [Hvalue _].
  rewrite Hvalue in Hd. apply (inj Ok) in Hd as <-.
  by apply (proj1 (Forall_forall _ _) Hall).
Qed.

Lemma scan_not_negative_witness : (0 ≤ Qc_of_Z 100)%Qc.
Proof.
  apply (@scan_not_negative scenario three_loans scenario_prices "B"
           (Qc_of_Z 1) "A" (Qc_of_Z 100) scenario_debts_not_negative).
  apply (bool_decide_unpack _). vm_compute. exact I.
Defined.
